(** * YamlNav: key paths from indentation, and the symbol under the cursor

    A shallow embedding of [lib/yaml_math.py]: [get_yaml_symbols] (the path
    builder, called [buildSymbols] in the specification) and
    [get_selected_yaml_symbol] with [iter_regions] (the resolver, called
    [resolveCurrentSymbol]).

    Offsets are Python [int]s, modelled as [Z].  Text is modelled as
    [string]; characters are restricted to code points below 256. *)

From Stdlib Require Import ZArith List String Ascii Bool Lia Sorted.
Import ListNotations.

Local Open Scope string_scope.
Local Open Scope list_scope.
Local Open Scope Z_scope.

(** ** The part of the host API the module touches *)

Module sublime.

(** [sublime.Region]: an anchor [a] and a caret [b], in either order. *)
Record Region : Type := mkRegion { a : Z; b : Z }.

Definition begin (r : Region) : Z := Z.min (a r) (b r).
Definition end_ (r : Region) : Z := Z.max (a r) (b r).

(** What the module reads from a [sublime.View]:
    - [buffer]: [view.substr(sublime.Region(0, view.size()))];
    - [find_by_selector]: the regions the host returns for the key
      selector used by [get_yaml_symbols];
    - [sel]: [view.sel()];
    - [lines]: [view.lines(region)]. *)
Record View : Type := mkView {
  buffer : string;
  find_by_selector : list Region;
  sel : list Region;
  lines : Region -> list Region
}.

End sublime.

Import sublime.

(** ** Python values and operations used by the source *)

(** Exceptions the list operations of the source can raise. *)
Inductive exn : Type := IndexError.

(** The result of running a piece of the source: a value, a raised
    exception, or a loop that did not finish within its fuel. *)
Inductive outcome (A : Type) : Type :=
| Ok (x : A)
| Raise (e : exn)
| Timeout.

Arguments Ok {A} x.
Arguments Raise {A} e.
Arguments Timeout {A}.

Definition bind {A B : Type} (m : outcome A) (k : A -> outcome B) : outcome B :=
  match m with
  | Ok x => k x
  | Raise e => Raise e
  | Timeout => Timeout
  end.

Declare Scope py_scope.
Delimit Scope py_scope with py.
Notation "x <- m ;; k" := (bind m (fun x => k))
  (at level 61, m at next level, right associativity) : py_scope.
Local Open Scope py_scope.

Module py.

(** [len(s)] *)
Definition len (s : string) : Z := Z.of_nat (String.length s).

(** Normalisation of a slice bound against a length, as Python does for
    [s[i:j]] and for the [start]/[end] arguments of [str.rfind]. *)
Definition adjust_index (n i : Z) : Z :=
  if i <? 0 then Z.max 0 (i + n) else Z.min i n.

(** [s[i:j]] *)
Definition slice (s : string) (i j : Z) : string :=
  let i' := adjust_index (len s) i in
  let j' := adjust_index (len s) j in
  if i' <? j' then substring (Z.to_nat i') (Z.to_nat (j' - i')) s
  else EmptyString.

(** Scan for [str.rfind] with a one-character needle: [s] starts at
    absolute position [pos]; the highest position in [[start, stop)]
    holding [c], or [-1]. *)
Fixpoint rfind_from (c : ascii) (s : string) (pos start stop : Z) : Z :=
  match s with
  | EmptyString => -1
  | String x s' =>
      let later := rfind_from c s' (pos + 1) start stop in
      if 0 <=? later then later
      else if (start <=? pos) && (pos <? stop) && Ascii.eqb x c then pos
      else -1
  end.

(** [s.rfind(c, start, stop)] for a one-character [c]. *)
Definition rfind (s : string) (c : ascii) (start stop : Z) : Z :=
  rfind_from c s 0 (adjust_index (len s) start) (adjust_index (len s) stop).

(** [c.isspace()] on code points below 256. *)
Definition isspace (c : ascii) : bool :=
  existsb (N.eqb (N_of_ascii c))
          [9; 10; 11; 12; 13; 28; 29; 30; 31; 32; 133; 160]%N.

Fixpoint lstrip (s : string) : string :=
  match s with
  | EmptyString => EmptyString
  | String c s' => if isspace c then lstrip s' else s
  end.

Fixpoint rstrip (s : string) : string :=
  match s with
  | EmptyString => EmptyString
  | String c s' =>
      match rstrip s' with
      | EmptyString => if isspace c then EmptyString else String c EmptyString
      | t => String c t
      end
  end.

(** [s.strip()] *)
Definition strip (s : string) : string := rstrip (lstrip s).

(** [sep.join(items)] *)
Definition join (sep : string) (items : list string) : string :=
  String.concat sep items.

(** [l[-1]] *)
Definition last_item {A : Type} (l : list A) : outcome A :=
  match rev l with
  | [] => Raise IndexError
  | x :: _ => Ok x
  end.

(** [l.pop()]: the list left after removing its last item. *)
Definition pop {A : Type} (l : list A) : outcome (list A) :=
  match rev l with
  | [] => Raise IndexError
  | _ :: r => Ok (rev r)
  end.

(** [l.append(x)] *)
Definition append {A : Type} (l : list A) (x : A) : list A := l ++ [x].

(** [for x in items: st = body(st, x)] *)
Fixpoint for_each {S X : Type} (body : S -> X -> outcome S)
         (items : list X) (st : S) : outcome S :=
  match items with
  | [] => Ok st
  | x :: rest => st' <- body st x ;; for_each body rest st'
  end.

End py.

(** ** The data model of [yaml_math.py] *)

Record Symbol : Type := mkSymbol { name : string; region : Region }.

Record Level : Type := mkLevel { key : string; indent : Z }.

Definition newline : ascii := "010"%char.

(** ** [get_yaml_symbols] *)

(** [content[region.begin():region.end()].strip()] *)
Definition key_of (content : string) (region : Region) : string :=
  py.strip (py.slice content (begin region) (end_ region)).

(** [region.begin() - content.rfind("\n", 0, region.begin()) - 1] *)
Definition indent_of (content : string) (region : Region) : Z :=
  begin region - py.rfind content newline 0 (begin region) - 1.

(** The [while] loop of the source,
    [while len(current_path) > 0 and current_path[-1].indent >= indent_level:
         current_path.pop()],
    run for at most [fuel] evaluations of its condition. *)
Fixpoint pop_levels (fuel : nat) (indent_level : Z) (current_path : list Level)
  : outcome (list Level) :=
  match fuel with
  | O => Timeout
  | S fuel' =>
      if 0 <? Z.of_nat (List.length current_path) then
        top <- py.last_item current_path ;;
        if indent top >=? indent_level then
          current_path' <- py.pop current_path ;;
          pop_levels fuel' indent_level current_path'
        else Ok current_path
      else Ok current_path
  end.

(** The loop's condition is evaluated at most once per frame plus once. *)
Definition pop_fuel (current_path : list Level) : nat :=
  S (List.length current_path).

(** The state the [for] loop updates: [current_path] and [symbols]. *)
Definition builder_state : Type := (list Level * list Symbol)%type.

(** One iteration of [for region in regions]. *)
Definition visit (content : string) (st : builder_state) (region : Region)
  : outcome builder_state :=
  let '(current_path, symbols) := st in
  let key_ := key_of content region in
  let indent_level := indent_of content region in
  current_path <- pop_levels (pop_fuel current_path) indent_level current_path ;;
  let current_path := py.append current_path (mkLevel key_ indent_level) in
  let symbol_name := py.join "." (map key current_path) in
  Ok (current_path, py.append symbols (mkSymbol symbol_name region)).

(** [get_yaml_symbols(view)] *)
Definition get_yaml_symbols (view : View) : outcome (list Symbol) :=
  let regions := find_by_selector view in
  let content := buffer view in
  st <- py.for_each (visit content) regions ([], []) ;;
  Ok (snd st).

(** ** [get_selected_yaml_symbol] and [iter_regions] *)

(** [reversed(l)] is a one-shot iterator.  It is modelled by the items it
    has yet to yield; every loop over the same iterator object continues
    from where the previous one stopped. *)
Definition iterator (A : Type) : Type := list A.

Definition reversed {A : Type} (l : list A) : iterator A := rev l.

(** [iter_regions(view)]: the regions the generator yields, in order. *)
Definition iter_regions (view : View) : list Region :=
  map (fun sel => mkRegion (b sel) (b sel)) (sel view)
  ++ sel view
  ++ flat_map (fun sel => lines view sel) (sel view).

Section Resolver.

(** [sublime.Region.intersects], [probe.intersects(other)]. *)
Variable intersects : Region -> Region -> bool.

(** The inner loop,
    [for symbol in yaml_symbols: if region.intersects(symbol.region): return symbol]:
    the symbol returned, if any, and what is left of the iterator. *)
Fixpoint scan_symbols (probe : Region) (yaml_symbols : iterator Symbol)
  : option Symbol * iterator Symbol :=
  match yaml_symbols with
  | [] => (None, [])
  | symbol :: yaml_symbols' =>
      if intersects probe (region symbol) then (Some symbol, yaml_symbols')
      else scan_symbols probe yaml_symbols'
  end.

(** The outer loop, [for region in iter_regions(view)], over the one
    iterator [yaml_symbols]. *)
Fixpoint scan_regions (regions : list Region) (yaml_symbols : iterator Symbol)
  : option Symbol :=
  match regions with
  | [] => None
  | probe :: regions' =>
      match scan_symbols probe yaml_symbols with
      | (Some symbol, _) => Some symbol
      | (None, yaml_symbols') => scan_regions regions' yaml_symbols'
      end
  end.

(** [get_selected_yaml_symbol(symbols, view)] *)
Definition get_selected_yaml_symbol (symbols : list Symbol) (view : View)
  : option Symbol :=
  match symbols with
  | [] => None
  | _ :: _ =>
      if negb (Z.of_nat (List.length (sel view)) =? 1) then None
      else
        let yaml_symbols := reversed symbols in
        scan_regions (iter_regions view) yaml_symbols
  end.

(** The resolution as the specification words it: every probe region is
    tested against the full symbol list in reverse order. *)
Fixpoint resolve_as_specified (regions : list Region) (symbols : list Symbol)
  : option Symbol :=
  match regions with
  | [] => None
  | probe :: regions' =>
      match find (fun symbol => intersects probe (region symbol)) (rev symbols) with
      | Some symbol => Some symbol
      | None => resolve_as_specified regions' symbols
      end
  end.

End Resolver.

(** [sublime.Region.intersects] as the editor's own [sublime.py] defines it:
    equal regions intersect, and otherwise one region must have an end point
    strictly inside the other.  It is host code, outside the repository: the
    statements about the resolver hold for every intersection test, and this
    one serves to run the resolver on concrete cursor states. *)
Definition region_intersects (lhs rhs : Region) : bool :=
  let lb := begin lhs in
  let le := end_ lhs in
  let rb := begin rhs in
  let re := end_ rhs in
  ((lb =? rb) && (le =? re))
  || ((lb <? rb) && (rb <? le)) || ((lb <? re) && (re <? le))
  || ((rb <? lb) && (lb <? re)) || ((rb <? le) && (le <? re)).

(** ** Concrete documents *)

Definition text_of_lines (ls : list string) : string :=
  String.concat (String newline "") ls.

(** [a:] / [  b: 1] / [  c: 2] *)
Definition doc_siblings : View :=
  mkView (text_of_lines ["a:"; "  b: 1"; "  c: 2"])
         [mkRegion 0 1; mkRegion 5 6; mkRegion 12 13]
         [mkRegion 0 0]
         (fun _ => [mkRegion 0 2]).

(** [a:] / [  b: 1] / [c: 2] *)
Definition doc_dedent : View :=
  mkView (text_of_lines ["a:"; "  b: 1"; "c: 2"])
         [mkRegion 0 1; mkRegion 5 6; mkRegion 10 11]
         [mkRegion 0 0]
         (fun _ => [mkRegion 0 2]).

(** [key: 1], with the caret on the value, after the [1], and nothing
    selected; the line is the region from 0 to 6. *)
Definition doc_caret_on_value : View :=
  mkView "key: 1" [mkRegion 0 3] [mkRegion 6 6] (fun _ => [mkRegion 0 6]).

(** [key: 1], with the word [key] selected from its start to its end. *)
Definition doc_key_selected : View :=
  mkView "key: 1" [mkRegion 0 3] [mkRegion 0 3] (fun _ => [mkRegion 0 6]).

(** [ab:] / [  cd: 1], with the caret between [c] and [d]. *)
Definition doc_nested : View :=
  mkView (text_of_lines ["ab:"; "  cd: 1"])
         [mkRegion 0 2; mkRegion 6 8]
         [mkRegion 7 7]
         (fun _ => [mkRegion 4 11]).

(** The symbols of [doc_nested] as the builder emits them. *)
Definition nested_symbols : list Symbol :=
  [mkSymbol "ab" (mkRegion 0 2); mkSymbol "ab.cd" (mkRegion 6 8)].

(** Two carets. *)
Definition doc_two_carets : View :=
  mkView (text_of_lines ["ab:"; "  cd: 1"])
         [mkRegion 0 2; mkRegion 6 8]
         [mkRegion 1 1; mkRegion 7 7]
         (fun _ => [mkRegion 4 11]).

(** A symbol list in which an ancestor's region covers its child's. *)
Definition overlapping_symbols : list Symbol :=
  [mkSymbol "ab" (mkRegion 0 11); mkSymbol "ab.cd" (mkRegion 6 8)].

(** No caret at all. *)
Definition doc_no_caret : View :=
  mkView (text_of_lines ["ab:"; "  cd: 1"])
         [mkRegion 0 2; mkRegion 6 8] [] (fun _ => [mkRegion 4 11]).

(** The test of the inner loop: [probe.intersects(symbol.region)]. *)
Definition hits (intersects : Region -> Region -> bool)
           (probe : Region) (symbol : Symbol) : bool :=
  intersects probe (region symbol).

(** The caret probe of a selection: [sublime.Region(sel.b, sel.b)]. *)
Definition caret_probe (selection : Region) : Region :=
  mkRegion (b selection) (b selection).

(** ** [yaml_nav.py]: the listener and the commands *)

(** [l[i]], with Python's negative indices. *)
Definition list_getitem {A : Type} (l : list A) (i : Z) : outcome A :=
  let n := Z.of_nat (List.length l) in
  let i' := if i <? 0 then i + n else i in
  if (0 <=? i') && (i' <? n) then
    match nth_error l (Z.to_nat i') with
    | Some x => Ok x
    | None => Raise IndexError
    end
  else Raise IndexError.

(** The state of the editor that the plugin reads and writes:
    - [the_view]: the view's buffer, key tokens, selections and lines;
    - [change_count]: [view.change_count()];
    - [is_loading]: [view.is_loading()];
    - [file_name]: [view.file_name()];
    - [status]: the view's status text under the key [STATUS_BAR_ID], set by
      [view.set_status] and removed by [view.erase_status];
    - [clipboard]: what [sublime.set_clipboard] stored last;
    - [status_message]: the last [window.status_message];
    - [quick_panel]: the items of the last [window.show_quick_panel];
    - [shown_at_center]: the region of the last [view.show_at_center];
    - [timeouts]: the change counts captured by the callbacks handed to
      [sublime.set_timeout_async], in the order they were scheduled.
    The [print] calls of the source write to the console only and are left
    out. *)
Record Editor : Type := mkEditor {
  the_view : View;
  change_count : Z;
  is_loading : bool;
  file_name : option string;
  status : option string;
  clipboard : string;
  status_message : option string;
  quick_panel : option (list string);
  shown_at_center : option Region;
  timeouts : list Z
}.

Definition with_status (ed : Editor) (text : option string) : Editor :=
  mkEditor (the_view ed) (change_count ed) (is_loading ed) (file_name ed)
           text (clipboard ed) (status_message ed) (quick_panel ed)
           (shown_at_center ed) (timeouts ed).


Definition with_status_message (ed : Editor) (text : string) : Editor :=
  mkEditor (the_view ed) (change_count ed) (is_loading ed) (file_name ed)
           (status ed) (clipboard ed) (Some text) (quick_panel ed)
           (shown_at_center ed) (timeouts ed).

Definition with_quick_panel (ed : Editor) (items : list string) : Editor :=
  mkEditor (the_view ed) (change_count ed) (is_loading ed) (file_name ed)
           (status ed) (clipboard ed) (status_message ed) (Some items)
           (shown_at_center ed) (timeouts ed).

Definition with_shown_at_center (ed : Editor) (r : Region) : Editor :=
  mkEditor (the_view ed) (change_count ed) (is_loading ed) (file_name ed)
           (status ed) (clipboard ed) (status_message ed) (quick_panel ed)
           (Some r) (timeouts ed).

Definition with_timeout (ed : Editor) (captured : Z) : Editor :=
  mkEditor (the_view ed) (change_count ed) (is_loading ed) (file_name ed)
           (status ed) (clipboard ed) (status_message ed) (quick_panel ed)
           (shown_at_center ed) (timeouts ed ++ [captured]).

(** [view.sel().clear(); view.sel().add(r)] *)
Definition with_only_selection (ed : Editor) (r : Region) : Editor :=
  mkEditor (mkView (buffer (the_view ed)) (find_by_selector (the_view ed))
                   [r] (lines (the_view ed)))
           (change_count ed) (is_loading ed) (file_name ed)
           (status ed) (clipboard ed) (status_message ed) (quick_panel ed)
           (shown_at_center ed) (timeouts ed).

(** [set_status(view, message)]: an empty or missing message erases the
    status. *)
Definition set_status (ed : Editor) (message : option string) : Editor :=
  match message with
  | Some (String c m) => with_status ed (Some ("YAML path: " ++ String c m)%string)
  | Some EmptyString => with_status ed None
  | None => with_status ed None
  end.

(** The attributes of [YamlNavListener] that its methods use. *)
Record Listener : Type := mkListener {
  current_yaml_symbol : option Symbol;
  yaml_symbols : list Symbol
}.

(** The scan of [re.sub(r"^(.+?)\.", "", s)] after the first character has
    been taken by the lazy group: what follows the first dot, unless a
    newline or the end of the text comes first. *)
Fixpoint after_first_dot (s : string) : option string :=
  match s with
  | EmptyString => None
  | String c s' =>
      if Ascii.eqb c "."%char then Some s'
      else if Ascii.eqb c newline then None
      else after_first_dot s'
  end.

(** [re.sub(r"^(.+?)\.", "", s)]: the pattern matches at the start of the
    text only, takes at least one character other than a newline, and ends
    at the first dot after it. *)
Definition trim_language_tag (s : string) : string :=
  match s with
  | EmptyString => s
  | String c s' =>
      if Ascii.eqb c newline then s
      else match after_first_dot s' with
           | Some rest => rest
           | None => s
           end
  end.

Section Plugin.

(** [sublime.Region.intersects]. *)
Variable intersects : Region -> Region -> bool.

(** [get_setting("trim_language_tag_on_copy_from_locales")], as a truth
    value. *)
Variable trim_language_tag_on_copy_from_locales : bool.

(** Whether [re.search(get_setting("detect_locale_filename_re"), name, re.I)]
    finds a match in [name]. *)
Variable detect_locale_filename_re : string -> bool.

(** [YamlNavListener._update_current_yaml_symbol] *)
Definition update_current_yaml_symbol (self : Listener) (ed : Editor)
  : Listener * Editor :=
  let current :=
    get_selected_yaml_symbol intersects (yaml_symbols self) (the_view ed) in
  let self := mkListener current (yaml_symbols self) in
  match current_yaml_symbol self with
  | Some symbol => (self, set_status ed (Some (name symbol)))
  | None => (self, set_status ed None)
  end.

(** [YamlNavListener._update_yaml_symbols(change_count)] *)
Definition update_yaml_symbols (captured : option Z) (self : Listener) (ed : Editor)
  : outcome (Listener * Editor) :=
  let stale :=
    match captured with
    | Some count => negb (count =? change_count ed)
    | None => false
    end in
  if stale then Ok (self, ed)
  else
    symbols <- get_yaml_symbols (the_view ed) ;;
    let self := mkListener (current_yaml_symbol self) symbols in
    Ok (update_current_yaml_symbol self ed).

(** [YamlNavListener._debounce_update_yaml_symbols]: schedules
    [partial(self._update_yaml_symbols, change_count=view.change_count())]. *)
Definition debounce_update_yaml_symbols (self : Listener) (ed : Editor)
  : Listener * Editor :=
  (self, with_timeout ed (change_count ed)).

(** [on_load_async] *)
Definition on_load_async (self : Listener) (ed : Editor)
  : outcome (Listener * Editor) :=
  update_yaml_symbols None self ed.

(** [on_activated_async] *)
Definition on_activated_async (self : Listener) (ed : Editor)
  : outcome (Listener * Editor) :=
  if is_loading ed then Ok (self, ed)
  else
    match yaml_symbols self with
    | _ :: _ => Ok (update_current_yaml_symbol self ed)
    | [] => update_yaml_symbols None self ed
    end.

(** [on_modified_async] *)
Definition on_modified_async (self : Listener) (ed : Editor)
  : outcome (Listener * Editor) :=
  Ok (debounce_update_yaml_symbols self ed).

(** [on_selection_modified_async] *)
Definition on_selection_modified_async (self : Listener) (ed : Editor)
  : outcome (Listener * Editor) :=
  Ok (update_current_yaml_symbol self ed).

(** The callbacks [captured], run one after the other. *)
Definition run_timeouts (captured : list Z) (self : Listener) (ed : Editor)
  : outcome (Listener * Editor) :=
  py.for_each (fun st count => update_yaml_symbols (Some count) (fst st) (snd st))
              captured (self, ed).



(** [YamlNavGotoCommand.run] *)
Definition goto_run (listener : option Listener) (ed : Editor) : Editor :=
  match listener with
  | None => ed
  | Some self =>
      match yaml_symbols self with
      | [] => with_status_message ed "No symbols found"
      | symbols => with_quick_panel ed (map name symbols)
      end
  end.

(** [YamlNavGotoCommand._on_symbol_selected(index)] *)
Definition goto_on_symbol_selected (index : Z) (listener : option Listener)
           (ed : Editor) : outcome Editor :=
  match index =? -1, listener with
  | true, _ => Ok ed
  | false, None => Ok ed
  | false, Some self =>
      symbol <- list_getitem (yaml_symbols self) index ;;
      let region := region symbol in
      let ed := with_shown_at_center ed region in
      Ok (with_only_selection ed (mkRegion (end_ region + 1) (end_ region + 1)))
  end.

End Plugin.

(** The events the editor sends to the listener; [OnTimeout count] is a
    callback scheduled by [_debounce_update_yaml_symbols] when the change
    count was [count]. *)
Inductive event : Type :=
| OnLoad
| OnActivated
| OnModified
| OnSelectionModified
| OnTimeout (count : Z).

Definition handle (intersects : Region -> Region -> bool) (e : event)
           (self : Listener) (ed : Editor) : outcome (Listener * Editor) :=
  match e with
  | OnLoad => on_load_async intersects self ed
  | OnActivated => on_activated_async intersects self ed
  | OnModified => on_modified_async self ed
  | OnSelectionModified => on_selection_modified_async intersects self ed
  | OnTimeout count => update_yaml_symbols intersects (Some count) self ed
  end.

(** The status text that shows a current symbol. *)
Definition shown (current : option Symbol) : option string :=
  match current with
  | Some symbol =>
      match name symbol with
      | EmptyString => None
      | String c n => Some ("YAML path: " ++ String c n)%string
      end
  | None => None
  end.

(** The status bar shows the listener's current symbol. *)
Definition status_shows (self : Listener) (ed : Editor) : Prop :=
  status ed = shown (current_yaml_symbol self).

(** Text without a dot and without a newline. *)
Definition plain (s : string) : Prop :=
  Forall (fun c => c <> "."%char /\ c <> newline) (list_ascii_of_string s).

(** An editor on [doc_nested] whose status bar shows [ab.cd], and the
    listener that goes with it. *)
Definition editor_nested : Editor :=
  mkEditor doc_nested 3 false (Some "en.yml") (Some "YAML path: ab.cd")
           "" None None None [].

Definition listener_nested : Listener :=
  mkListener (Some (mkSymbol "ab.cd" (mkRegion 6 8))) nested_symbols.

(** ** Vocabulary of the statements *)

(** Frames that the loop removes for a token at [indent_level]. *)
Definition deeper (indent_level : Z) (frame : Level) : Prop :=
  indent_level <= indent frame.

(** The loop's exit condition: the stack is empty or its top is shallower. *)
Definition shallower_top (indent_level : Z) (current_path : list Level) : Prop :=
  forall top, py.last_item current_path = Ok top -> indent top < indent_level.

(** The frame pushed for a token. *)
Definition level_of (content : string) (region : Region) : Level :=
  mkLevel (key_of content region) (indent_of content region).

(** The symbol emitted for a token when the stack is [current_path]. *)
Definition symbol_of (current_path : list Level) (region : Region) : Symbol :=
  mkSymbol (py.join "." (map key current_path)) region.

(** The builder's state once the tokens [regions] have been processed,
    starting from the empty stack and the empty output. *)
Definition run (content : string) (regions : list Region) : outcome builder_state :=
  py.for_each (visit content) regions ([], []).

(** Indents strictly increasing from the bottom of the stack to its top. *)
Definition increasing (current_path : list Level) : Prop :=
  StronglySorted Z.lt (map indent current_path).

(** The character of [content] at offset [j], if there is one. *)
Definition char_at (content : string) (j : Z) : option ascii :=
  if j <? 0 then None else String.get (Z.to_nat j) content.

(** Text made of whitespace only. *)
Definition all_space (s : string) : Prop :=
  Forall (fun c => py.isspace c = true) (list_ascii_of_string s).

Definition starts_with_space (s : string) : bool :=
  match s with
  | EmptyString => false
  | String c _ => py.isspace c
  end.

Definition ends_with_space (s : string) : bool :=
  match rev (list_ascii_of_string s) with
  | [] => false
  | c :: _ => py.isspace c
  end.

(** [a:] / [  b: other] / [  c: 2]: the keys and columns of
    [doc_siblings], other values. *)
Definition doc_siblings_other_values : View :=
  mkView (text_of_lines ["a:"; "  b: other"; "  c: 2"])
         [mkRegion 0 1; mkRegion 5 6; mkRegion 16 17]
         []
         (fun _ => []).

(** [kept] holds some of the items of [all], in the order of [all]. *)
Inductive subseq {A : Type} : list A -> list A -> Prop :=
| subseq_nil : subseq [] []
| subseq_skip (x : A) (kept all : list A) :
    subseq kept all -> subseq kept (x :: all)
| subseq_keep (x : A) (kept all : list A) :
    subseq kept all -> subseq (x :: kept) (x :: all).

(** ** Python lists *)

Lemma last_item_app {A : Type} (l : list A) (x : A) :
  py.last_item (l ++ [x]) = Ok x.
Proof. unfold py.last_item. now rewrite rev_unit. Qed.

Lemma pop_app {A : Type} (l : list A) (x : A) :
  py.pop (l ++ [x]) = Ok l.
Proof. unfold py.pop. rewrite rev_unit. now rewrite rev_involutive. Qed.

Lemma last_item_Ok {A : Type} (l : list A) (x : A) :
  py.last_item l = Ok x -> exists below, l = below ++ [x].
Proof.
  destruct l as [|y l] using rev_ind; [discriminate|].
  rewrite last_item_app. intros [= ->]. now exists l.
Qed.

(** ** The pop loop *)

Lemma shallower_top_nil indent_level : shallower_top indent_level [].
Proof. intros top; discriminate. Qed.

Lemma shallower_top_app indent_level below top :
  shallower_top indent_level (below ++ [top]) <-> indent top < indent_level.
Proof.
  unfold shallower_top; split.
  - intros H; apply H, last_item_app.
  - intros H t. rewrite last_item_app. now intros [= <-].
Qed.

(** Unfolding of one evaluation of the loop condition. *)
Lemma pop_levels_nil fuel indent_level :
  pop_levels (S fuel) indent_level [] = Ok [].
Proof. reflexivity. Qed.

Lemma pop_levels_app fuel indent_level below top :
  pop_levels (S fuel) indent_level (below ++ [top]) =
  if indent top >=? indent_level then pop_levels fuel indent_level below
  else Ok (below ++ [top]).
Proof.
  cbn [pop_levels].
  replace (0 <? Z.of_nat (List.length (below ++ [top]))) with true.
  2:{ symmetry; apply Z.ltb_lt. rewrite length_app; cbn; lia. }
  rewrite last_item_app; cbn [bind].
  destruct (indent top >=? indent_level); [|reflexivity].
  now rewrite pop_app.
Qed.

(** With fuel above the stack depth the loop finishes, having removed the
    longest run of frames at the top that are at least as deep as the
    token. *)
Lemma pop_levels_spec indent_level current_path :
  forall fuel, (List.length current_path < fuel)%nat ->
  exists kept popped,
    current_path = kept ++ popped /\
    Forall (deeper indent_level) popped /\
    shallower_top indent_level kept /\
    pop_levels fuel indent_level current_path = Ok kept.
Proof.
  induction current_path as [|top below IH] using rev_ind; intros fuel Hfuel.
  - destruct fuel; [cbn in Hfuel; lia|].
    exists [], []. repeat split; auto using shallower_top_nil.
  - rewrite length_app in Hfuel; cbn in Hfuel.
    destruct fuel as [|fuel]; [lia|].
    rewrite pop_levels_app.
    destruct (indent top >=? indent_level) eqn:Hge.
    + destruct (IH fuel ltac:(lia)) as (kept & popped & -> & Hpop & Htop & Hrun).
      exists kept, (popped ++ [top]). repeat split; auto.
      * now rewrite app_assoc.
      * apply Forall_app; split; [assumption|].
        constructor; [|constructor]. unfold deeper. lia.
    + exists (below ++ [top]), []. repeat split; auto.
      * now rewrite app_nil_r.
      * apply shallower_top_app. lia.
Qed.

(** The split of a stack into kept and popped frames is unique. *)
Lemma pop_split_unique indent_level kept1 popped1 kept2 popped2 :
  kept1 ++ popped1 = kept2 ++ popped2 ->
  Forall (deeper indent_level) popped1 -> shallower_top indent_level kept1 ->
  Forall (deeper indent_level) popped2 -> shallower_top indent_level kept2 ->
  kept1 = kept2.
Proof.
  revert popped2.
  induction popped1 as [|x popped1 IH] using rev_ind; intros popped2 Heq Hp1 Hk1 Hp2 Hk2.
  - rewrite app_nil_r in Heq. subst kept1.
    destruct popped2 as [|y popped2 _] using rev_ind; [now rewrite app_nil_r|].
    exfalso. rewrite app_assoc in Hk1.
    apply shallower_top_app in Hk1.
    apply Forall_app in Hp2 as [_ Hy]. inversion Hy; subst. unfold deeper in *. lia.
  - destruct popped2 as [|y popped2 _] using rev_ind.
    + exfalso. rewrite app_nil_r in Heq. subst kept2.
      rewrite app_assoc in Hk2. apply shallower_top_app in Hk2.
      apply Forall_app in Hp1 as [_ Hx]. inversion Hx; subst. unfold deeper in *. lia.
    + rewrite !app_assoc in Heq. apply app_inj_tail in Heq as [Heq _].
      apply Forall_app in Hp1 as [Hp1 _]. apply Forall_app in Hp2 as [Hp2 _].
      eauto.
Qed.

(** More fuel than the bound changes nothing. *)
Lemma pop_levels_fuel indent_level current_path fuel :
  (List.length current_path < fuel)%nat ->
  pop_levels fuel indent_level current_path =
  pop_levels (pop_fuel current_path) indent_level current_path.
Proof.
  intros Hfuel.
  destruct (pop_levels_spec indent_level current_path fuel Hfuel)
    as (k1 & p1 & E1 & Hp1 & Hk1 & ->).
  destruct (pop_levels_spec indent_level current_path (pop_fuel current_path))
    as (k2 & p2 & E2 & Hp2 & Hk2 & ->); [unfold pop_fuel; lia|].
  f_equal. rewrite E1 in E2 at 1. eapply pop_split_unique; eauto.
Qed.

(** ** One token *)

Lemma visit_spec content current_path symbols region :
  exists kept popped,
    current_path = kept ++ popped /\
    Forall (deeper (indent_of content region)) popped /\
    shallower_top (indent_of content region) kept /\
    visit content (current_path, symbols) region =
      Ok (kept ++ [level_of content region],
          symbols ++ [symbol_of (kept ++ [level_of content region]) region]).
Proof.
  destruct (pop_levels_spec (indent_of content region) current_path
                            (pop_fuel current_path))
    as (kept & popped & E & Hp & Hk & Hrun); [unfold pop_fuel; lia|].
  exists kept, popped. repeat split; auto.
  unfold visit. rewrite Hrun. reflexivity.
Qed.

(** A top frame at least as deep as the token is gone before the push. *)
Lemma visit_pops_top content below top symbols region :
  indent_of content region <= indent top ->
  visit content (below ++ [top], symbols) region =
  visit content (below, symbols) region.
Proof.
  intros Hle. unfold visit, pop_fuel.
  rewrite pop_levels_app.
  replace (indent top >=? indent_of content region) with true
    by (symmetry; apply Z.geb_le; lia).
  rewrite length_app; cbn [List.length].
  rewrite (pop_levels_fuel _ below (List.length below + 1)) by lia.
  reflexivity.
Qed.

(** A shallower top frame stays, and the new frame goes on top of it. *)
Lemma visit_keeps content current_path symbols region :
  shallower_top (indent_of content region) current_path ->
  visit content (current_path, symbols) region =
    Ok (current_path ++ [level_of content region],
        symbols ++ [symbol_of (current_path ++ [level_of content region]) region]).
Proof.
  intros Htop.
  destruct (visit_spec content current_path symbols region)
    as (kept & popped & E & Hp & Hk & ->).
  assert (kept = current_path) as ->; [|reflexivity].
  eapply (pop_split_unique _ kept popped current_path []); eauto.
  now rewrite app_nil_r.
Qed.

(** ** The whole loop *)

Lemma for_each_app {S X : Type} (body : S -> X -> outcome S) xs ys st :
  py.for_each body (xs ++ ys) st =
  (st' <- py.for_each body xs st ;; py.for_each body ys st').
Proof.
  revert st; induction xs as [|x xs IH]; intros st; cbn; [reflexivity|].
  destruct (body st x); cbn; auto.
Qed.

Lemma for_each_invariant {S X : Type} (body : S -> X -> outcome S)
      (P : S -> Prop) (Q : X -> Prop) :
  (forall st x st', P st -> Q x -> body st x = Ok st' -> P st') ->
  forall items st st',
    Forall Q items -> P st -> py.for_each body items st = Ok st' -> P st'.
Proof.
  intros Hstep items; induction items as [|x items IH]; intros st st' HQ HP; cbn.
  - now intros [= <-].
  - inversion HQ; subst.
    destruct (body st x) as [st1| |] eqn:E; cbn; try discriminate.
    eauto.
Qed.

(** The loop finishes from every state, and appends one symbol per token,
    in order, each carrying its token's region. *)
Lemma for_each_visit content regions :
  forall current_path symbols,
  exists current_path' emitted,
    py.for_each (visit content) regions (current_path, symbols) =
      Ok (current_path', symbols ++ emitted) /\
    map region emitted = regions.
Proof.
  induction regions as [|r regions IH]; intros current_path symbols;
    cbn [py.for_each].
  - exists current_path, []. now rewrite app_nil_r.
  - destruct (visit_spec content current_path symbols r)
      as (kept & popped & _ & _ & _ & ->). cbn [bind].
    destruct (IH (kept ++ [level_of content r])
                 (symbols ++ [symbol_of (kept ++ [level_of content r]) r]))
      as (path' & emitted & -> & Hmap).
    exists path', (symbol_of (kept ++ [level_of content r]) r :: emitted).
    split; [now rewrite <- app_assoc|]. cbn. now rewrite Hmap.
Qed.

Lemma run_Ok content regions :
  exists current_path symbols,
    run content regions = Ok (current_path, symbols) /\
    map region symbols = regions.
Proof.
  destruct (for_each_visit content regions [] []) as (p & e & H & Hm).
  now exists p, e.
Qed.

Lemma get_yaml_symbols_run view :
  get_yaml_symbols view =
  (st <- run (buffer view) (find_by_selector view) ;; Ok (snd st)).
Proof. reflexivity. Qed.

Lemma run_snoc content processed token :
  run content (processed ++ [token]) =
  (st <- run content processed ;; visit content st token).
Proof.
  unfold run. rewrite for_each_app.
  destruct (py.for_each (visit content) processed ([], [])) as [st| |]; cbn; auto.
  now destruct (visit content st token).
Qed.

Lemma run_app content processed pending :
  run content (processed ++ pending) =
  (st <- run content processed ;; py.for_each (visit content) pending st).
Proof. unfold run. apply for_each_app. Qed.

(** ** Increasing stacks *)

Lemma strongly_sorted_app_inv (l1 l2 : list Z) :
  StronglySorted Z.lt (l1 ++ l2) ->
  StronglySorted Z.lt l1 /\ Forall (fun x => Forall (Z.lt x) l2) l1.
Proof.
  induction l1 as [|x l1 IH]; cbn; intros H.
  - split; constructor.
  - inversion H as [|? ? Hs Hall]; subst.
    destruct (IH Hs) as [Hs1 Hf]. apply Forall_app in Hall as [Ha1 Ha2].
    split; constructor; auto.
Qed.

Lemma strongly_sorted_snoc (l : list Z) (x : Z) :
  StronglySorted Z.lt l -> Forall (fun y => y < x) l ->
  StronglySorted Z.lt (l ++ [x]).
Proof.
  induction l as [|y l IH]; cbn; intros Hs Hall.
  - repeat constructor.
  - inversion Hs; subst. inversion Hall; subst.
    constructor; [auto|]. apply Forall_app; split; auto.
Qed.

Lemma increasing_prefix kept popped :
  increasing (kept ++ popped) -> increasing kept.
Proof.
  unfold increasing. rewrite map_app. intros H.
  now apply strongly_sorted_app_inv in H.
Qed.

Lemma increasing_push kept frame :
  increasing kept -> shallower_top (indent frame) kept ->
  increasing (kept ++ [frame]).
Proof.
  unfold increasing. intros Hs Htop. rewrite map_app. cbn [map].
  apply strongly_sorted_snoc; [assumption|].
  destruct kept as [|top below _] using rev_ind; [constructor|].
  apply shallower_top_app in Htop.
  rewrite map_app in *. cbn [map] in *.
  apply strongly_sorted_app_inv in Hs as [_ Hall].
  apply Forall_app; split.
  - eapply Forall_impl; [|exact Hall]. cbn. intros y Hy.
    inversion Hy; subst. lia.
  - repeat constructor. lia.
Qed.

Lemma visit_increasing content current_path symbols region st' :
  increasing current_path ->
  visit content (current_path, symbols) region = Ok st' ->
  increasing (fst st').
Proof.
  intros Hinc.
  destruct (visit_spec content current_path symbols region)
    as (kept & popped & -> & _ & Hk & ->).
  intros [= <-]. cbn [fst].
  apply increasing_push; [eapply increasing_prefix; eauto|exact Hk].
Qed.

Lemma run_increasing content regions current_path symbols :
  run content regions = Ok (current_path, symbols) -> increasing current_path.
Proof.
  intros H.
  apply (for_each_invariant (visit content) (fun st => increasing (fst st))
           (fun _ => True)) in H; auto.
  - intros [p s] x st' HP _ Hv. eapply visit_increasing; eauto.
  - apply Forall_forall; auto.
  - constructor.
Qed.

(** On an increasing stack whose top is exactly as deep as the token, only
    the top frame goes. *)
Lemma visit_sibling content below top symbols region :
  increasing (below ++ [top]) -> indent top = indent_of content region ->
  visit content (below ++ [top], symbols) region =
    Ok (below ++ [level_of content region],
        symbols ++ [symbol_of (below ++ [level_of content region]) region]).
Proof.
  intros Hinc Heq.
  rewrite visit_pops_top by lia.
  apply visit_keeps.
  destruct below as [|t below' _] using rev_ind; [apply shallower_top_nil|].
  apply shallower_top_app. rewrite <- Heq.
  unfold increasing in Hinc. rewrite !map_app in Hinc. cbn [map] in Hinc.
  apply strongly_sorted_app_inv in Hinc as [_ Hall].
  apply Forall_app in Hall as [_ Hall].
  inversion Hall as [|? ? Ht _]; subst. inversion Ht; subst. assumption.
Qed.

(** A token at indent 0 leaves no frame of non-negative indent below it. *)
Lemma visit_root content current_path symbols region :
  indent_of content region = 0 ->
  Forall (fun frame => 0 <= indent frame) current_path ->
  visit content (current_path, symbols) region =
    Ok ([level_of content region],
        symbols ++ [symbol_of [level_of content region] region]).
Proof.
  intros H0 Hall.
  destruct (visit_spec content current_path symbols region)
    as (kept & popped & -> & _ & Hk & ->).
  destruct kept as [|top below _] using rev_ind; [reflexivity|].
  exfalso. apply shallower_top_app in Hk.
  apply Forall_app in Hall as [Hall _]. apply Forall_app in Hall as [_ Hall].
  inversion Hall; subst. lia.
Qed.

(** ** [str.rfind] and the column of an offset *)

Lemma get_beyond (s : string) :
  forall k, (String.length s <= k)%nat -> String.get k s = None.
Proof.
  induction s as [|x s IH]; intros k Hk; [reflexivity|].
  destruct k as [|k]; cbn in *; [lia|]. apply IH; lia.
Qed.

Lemma rfind_from_spec (c : ascii) (s : string) :
  forall pos start stop, 0 <= pos ->
  let r := py.rfind_from c s pos start stop in
  (r = -1 /\
   forall k, start <= pos + Z.of_nat k < stop -> String.get k s <> Some c)
  \/
  (exists k, r = pos + Z.of_nat k /\ start <= r < stop /\
             String.get k s = Some c /\
             forall k', (k < k')%nat -> pos + Z.of_nat k' < stop ->
                        String.get k' s <> Some c).
Proof.
  induction s as [|x s IH]; intros pos start stop Hpos; cbn [py.rfind_from].
  - left. split; [reflexivity|]. intros k _. destruct k; discriminate.
  - cbv zeta.
    destruct (IH (pos + 1) start stop ltac:(lia)) as [[Hr Hnone]|(k & Hr & Hin & Hget & Hlast)].
    + rewrite Hr. cbn [Z.leb Z.compare].
      destruct ((start <=? pos) && (pos <? stop) && Ascii.eqb x c) eqn:Hc.
      * right. exists 0%nat.
        apply andb_prop in Hc as [Hc Hx]. apply andb_prop in Hc as [H1 H2].
        apply Z.leb_le in H1. apply Z.ltb_lt in H2. apply Ascii.eqb_eq in Hx.
        subst x. repeat split; try (cbn; lia).
        intros k' Hk' Hlt. destruct k' as [|k']; [lia|]. cbn [String.get].
        apply Hnone. lia.
      * left. split; [reflexivity|].
        intros k Hk. destruct k as [|k]; cbn [String.get].
        -- intros [= ->]. rewrite Ascii.eqb_refl in Hc.
           replace (start <=? pos) with true in Hc by (symmetry; apply Z.leb_le; lia).
           replace (pos <? stop) with true in Hc by (symmetry; apply Z.ltb_lt; lia).
           discriminate.
        -- apply Hnone. lia.
    + replace (0 <=? py.rfind_from c s (pos + 1) start stop) with true
        by (symmetry; apply Z.leb_le; lia).
      right. exists (S k). repeat split; try lia; [exact Hget|].
      intros k' Hk' Hlt. destruct k' as [|k']; [lia|]. cbn [String.get].
      apply Hlast; lia.
Qed.

(** [content.rfind("\n", 0, stop)] is the offset of the last newline
    strictly before [stop], or [-1] when there is none. *)
Lemma rfind_newline_spec (content : string) (stop : Z) :
  0 <= stop ->
  let r := py.rfind content newline 0 stop in
  (r = -1 /\ forall j, 0 <= j < stop -> char_at content j <> Some newline)
  \/
  (0 <= r < stop /\ char_at content r = Some newline /\
   forall j, r < j < stop -> char_at content j <> Some newline).
Proof.
  intros Hstop. unfold py.rfind, py.adjust_index.
  assert (Hlen : 0 <= py.len content) by (unfold py.len; lia).
  replace (0 <? 0) with false by reflexivity.
  replace (stop <? 0) with false by (symmetry; apply Z.ltb_ge; lia).
  rewrite (Z.min_l 0) by lia.
  assert (Hchar : forall j, 0 <= j -> char_at content j = String.get (Z.to_nat j) content).
  { intros j Hj. unfold char_at.
    now replace (j <? 0) with false by (symmetry; apply Z.ltb_ge; lia). }
  assert (Hout : forall j, py.len content <= j -> char_at content j <> Some newline).
  { intros j Hj. rewrite Hchar by lia. rewrite get_beyond; [discriminate|].
    unfold py.len in Hj. lia. }
  destruct (rfind_from_spec newline content 0 0 (Z.min stop (py.len content)) ltac:(lia))
    as [[Hr Hnone]|(k & Hr & Hin & Hget & Hlast)].
  - left. split; [exact Hr|]. intros j Hj.
    destruct (Z.lt_ge_cases j (py.len content)) as [Hlt|Hge]; [|auto].
    rewrite Hchar by lia. apply Hnone. lia.
  - right. cbv zeta. rewrite Hr. cbn [Z.add] in *. repeat split; try lia.
    + rewrite Hchar by lia. now rewrite Nat2Z.id.
    + intros j Hj.
      destruct (Z.lt_ge_cases j (py.len content)) as [Hlt|Hge]; [|auto].
      rewrite Hchar by lia. apply Hlast; lia.
Qed.

Lemma indent_of_bounds content region :
  0 <= begin region ->
  0 <= indent_of content region <= begin region /\
  (forall j, begin region - indent_of content region <= j < begin region ->
             char_at content j <> Some newline) /\
  (indent_of content region = begin region \/
   char_at content (begin region - indent_of content region - 1) = Some newline).
Proof.
  intros Hb. unfold indent_of.
  destruct (rfind_newline_spec content (begin region) Hb)
    as [[Hr Hnone]|(Hin & Hnl & Hlast)].
  - rewrite Hr. split; [lia|]. split.
    + intros j Hj. apply Hnone. lia.
    + left. lia.
  - split; [lia|]. split.
    + intros j Hj. apply Hlast. lia.
    + right.
      replace (begin region - (begin region - py.rfind content newline 0 (begin region) - 1) - 1)
        with (py.rfind content newline 0 (begin region)) by lia.
      exact Hnl.
Qed.

Lemma level_invariant content (all : list Region) regions :
  forall st st',
    incl regions all ->
    Forall (fun frame => exists r, In r all /\ frame = level_of content r) (fst st) ->
    py.for_each (visit content) regions st = Ok st' ->
    Forall (fun frame => exists r, In r all /\ frame = level_of content r) (fst st').
Proof.
  intros st st' Hincl Hst Hrun.
  apply (for_each_invariant (visit content)
           (fun st => Forall (fun frame => exists r, In r all /\ frame = level_of content r) (fst st))
           (fun r => In r all)) with (items := regions) (st := st); auto.
  - clear. intros [p s] r st' HP HQ.
    destruct (visit_spec content p s r) as (kept & popped & -> & _ & _ & ->).
    intros [= <-]. cbn [fst] in *.
    apply Forall_app in HP as [HP _].
    apply Forall_app; split; [assumption|].
    constructor; [|constructor]. now exists r.
  - apply Forall_forall. auto.
Qed.

(** ** [str.strip] *)

Lemma lstrip_spec (s : string) :
  exists l, s = (l ++ py.lstrip s)%string /\ all_space l /\
            starts_with_space (py.lstrip s) = false.
Proof.
  induction s as [|c s (l & Hs & Hl & Hstart)]; cbn [py.lstrip].
  - exists EmptyString. repeat split. constructor.
  - destruct (py.isspace c) eqn:Hc.
    + exists (String c l). cbn [String.append]. rewrite <- Hs. repeat split; auto.
      unfold all_space. cbn [list_ascii_of_string]. constructor; assumption.
    + exists EmptyString. repeat split; [constructor|].
      cbn [starts_with_space]. exact Hc.
Qed.

Lemma ends_with_space_cons c d t :
  ends_with_space (String c (String d t)) = ends_with_space (String d t).
Proof.
  unfold ends_with_space. cbn [list_ascii_of_string rev].
  destruct (rev (list_ascii_of_string t)); reflexivity.
Qed.

Lemma rstrip_spec (s : string) :
  exists r, s = (py.rstrip s ++ r)%string /\ all_space r /\
            ends_with_space (py.rstrip s) = false.
Proof.
  induction s as [|c s (r & Hs & Hr & Hend)]; cbn [py.rstrip].
  - exists EmptyString. repeat split. constructor.
  - destruct (py.rstrip s) as [|d t] eqn:E.
    + cbn [String.append] in Hs. subst r.
      destruct (py.isspace c) eqn:Hc.
      * exists (String c s). repeat split.
        unfold all_space. cbn [list_ascii_of_string]. constructor; assumption.
      * exists s. split; [reflexivity|]. split; [exact Hr|].
        unfold ends_with_space. cbn [list_ascii_of_string rev app]. exact Hc.
    + exists r. split; [|split; [exact Hr|]].
      * cbn [String.append]. now rewrite Hs at 1.
      * now rewrite ends_with_space_cons.
Qed.

Lemma rstrip_keeps_start (s : string) :
  starts_with_space s = false ->
  starts_with_space (py.rstrip s) = false.
Proof.
  destruct s as [|c s]; [reflexivity|]. cbn [starts_with_space py.rstrip].
  intros Hc. destruct (py.rstrip s); [rewrite Hc|];
    cbn [starts_with_space]; auto.
Qed.

(** [raw.strip()] is [raw] without its leading and trailing whitespace. *)
Lemma strip_spec (raw : string) :
  exists l r, raw = (l ++ py.strip raw ++ r)%string /\
              all_space l /\ all_space r /\
              starts_with_space (py.strip raw) = false /\
              ends_with_space (py.strip raw) = false.
Proof.
  destruct (lstrip_spec raw) as (l & Hl & Hsl & Hstart).
  destruct (rstrip_spec (py.lstrip raw)) as (r & Hr & Hsr & Hend).
  exists l, r. unfold py.strip. repeat split; auto.
  - now rewrite <- Hr.
  - now apply rstrip_keeps_start.
Qed.

(** Runs the builder on three tokens whose keys and indents are known. *)
Ltac run_three view :=
  unfold get_yaml_symbols, level_of;
  destruct (find_by_selector view) as [|r1 [|r2 [|r3 [|r4 rest]]]];
    try discriminate;
  let K1 := fresh in let I1 := fresh in
  let K2 := fresh in let I2 := fresh in
  let K3 := fresh in let I3 := fresh in
  intros [= K1 I1 K2 I2 K3 I3]; cbn [py.for_each]; unfold visit;
  rewrite K1, I1, K2, I2, K3, I3;
  eexists; split; vm_compute; reflexivity.

(** The names depend on the tokens' keys and indents only. *)
Lemma names_of_siblings view :
  map (level_of (buffer view)) (find_by_selector view) =
    [mkLevel "a" 0; mkLevel "b" 2; mkLevel "c" 2] ->
  exists symbols, get_yaml_symbols view = Ok symbols /\
                  map name symbols = ["a"; "a.b"; "a.c"].
Proof. run_three view. Qed.

Lemma names_of_dedent view :
  map (level_of (buffer view)) (find_by_selector view) =
    [mkLevel "a" 0; mkLevel "b" 2; mkLevel "c" 0] ->
  exists symbols, get_yaml_symbols view = Ok symbols /\
                  map name symbols = ["a"; "a.b"; "c"].
Proof. run_three view. Qed.

(** ** The claims about the path builder *)

(** C2: before a token's frame is pushed, frames are popped exactly while
    the stack is non-empty and its top frame is at least as deep as the
    token: the stack splits into the frames kept and the frames popped, all
    popped frames have an indent greater than or equal to the token's, and
    the kept part is empty or has a strictly shallower top.  A top frame of
    equal indent is replaced, a token at indent 0 empties a stack of
    non-negative indents, and the two documents of the specification yield
    the names [a, a.b, a.c] and [a, a.b, c]. *)
Theorem visit_pops_while_not_shallower :
  (forall content current_path symbols region,
     exists kept popped,
       current_path = kept ++ popped /\
       Forall (deeper (indent_of content region)) popped /\
       shallower_top (indent_of content region) kept /\
       visit content (current_path, symbols) region =
         Ok (kept ++ [level_of content region],
             symbols ++ [symbol_of (kept ++ [level_of content region]) region])) /\
  (forall content below top symbols region,
     indent top = indent_of content region ->
     visit content (below ++ [top], symbols) region =
       visit content (below, symbols) region /\
     (increasing (below ++ [top]) ->
      visit content (below ++ [top], symbols) region =
        Ok (below ++ [level_of content region],
            symbols ++ [symbol_of (below ++ [level_of content region]) region]))) /\
  (forall content current_path symbols region,
     indent_of content region = 0 ->
     Forall (fun frame => 0 <= indent frame) current_path ->
     visit content (current_path, symbols) region =
       Ok ([level_of content region],
           symbols ++ [symbol_of [level_of content region] region])) /\
  (forall view,
     map (level_of (buffer view)) (find_by_selector view) =
       [mkLevel "a" 0; mkLevel "b" 2; mkLevel "c" 2] ->
     exists symbols, get_yaml_symbols view = Ok symbols /\
                     map name symbols = ["a"; "a.b"; "a.c"]) /\
  (forall view,
     map (level_of (buffer view)) (find_by_selector view) =
       [mkLevel "a" 0; mkLevel "b" 2; mkLevel "c" 0] ->
     exists symbols, get_yaml_symbols view = Ok symbols /\
                     map name symbols = ["a"; "a.b"; "c"]).
Proof.
  split; [exact visit_spec|].
  split.
  { intros content below top symbols region Heq. split.
    - apply visit_pops_top. lia.
    - intros Hinc. now apply visit_sibling. }
  split; [exact visit_root|].
  split; [exact names_of_siblings|exact names_of_dedent].
Qed.

Lemma visit_pops_while_not_shallower_witness :
  (indent (mkLevel "b" 2) = indent_of (buffer doc_siblings) (mkRegion 12 13) /\
   visit (buffer doc_siblings)
         ([mkLevel "a" 0; mkLevel "b" 2], []) (mkRegion 12 13) =
   visit (buffer doc_siblings) ([mkLevel "a" 0], []) (mkRegion 12 13))
  /\
  (indent_of (buffer doc_dedent) (mkRegion 10 11) = 0 /\
   Forall (fun frame => 0 <= indent frame) [mkLevel "a" 0; mkLevel "b" 2] /\
   visit (buffer doc_dedent)
         ([mkLevel "a" 0; mkLevel "b" 2], []) (mkRegion 10 11) =
   Ok ([mkLevel "c" 0], [mkSymbol "c" (mkRegion 10 11)]))
  /\
  (map (level_of (buffer doc_siblings)) (find_by_selector doc_siblings) =
     [mkLevel "a" 0; mkLevel "b" 2; mkLevel "c" 2] /\
   exists symbols, get_yaml_symbols doc_siblings = Ok symbols /\
                   map name symbols = ["a"; "a.b"; "a.c"])
  /\
  (map (level_of (buffer doc_dedent)) (find_by_selector doc_dedent) =
     [mkLevel "a" 0; mkLevel "b" 2; mkLevel "c" 0] /\
   exists symbols, get_yaml_symbols doc_dedent = Ok symbols /\
                   map name symbols = ["a"; "a.b"; "c"]).
Proof.
  assert (Hall : Forall (fun frame => 0 <= indent frame)
                        [mkLevel "a" 0; mkLevel "b" 2])
    by (repeat constructor; cbn; lia).
  destruct visit_pops_while_not_shallower as (_ & Hsib & Hroot & Hex1 & Hex2).
  split; [split; [reflexivity|]|split; [split; [reflexivity|split; [exact Hall|]]|split]].
  - apply (proj1 (Hsib (buffer doc_siblings) [mkLevel "a" 0] (mkLevel "b" 2) []
                       (mkRegion 12 13) eq_refl)).
  - apply (Hroot (buffer doc_dedent) [mkLevel "a" 0; mkLevel "b" 2] []
                 (mkRegion 10 11) eq_refl Hall).
  - split; [reflexivity|]. apply (Hex1 doc_siblings). reflexivity.
  - split; [reflexivity|]. apply (Hex2 doc_dedent). reflexivity.
Defined.

(** C3: the indent computed for a token is the number of characters between
    the most recent newline strictly before the token's begin offset and
    that offset: the [indent] characters before the token hold no newline,
    and they start the document or follow a newline.  It is 0 for a token
    that begins the document or begins right after a newline, and it is the
    indent of the frame pushed for the token. *)
Theorem indent_is_column content region :
  0 <= begin region ->
  0 <= indent_of content region <= begin region /\
  (forall j, begin region - indent_of content region <= j < begin region ->
             char_at content j <> Some newline) /\
  (indent_of content region = begin region \/
   char_at content (begin region - indent_of content region - 1) = Some newline) /\
  (begin region = 0 -> indent_of content region = 0) /\
  (char_at content (begin region - 1) = Some newline ->
   indent_of content region = 0) /\
  (forall current_path symbols,
     exists kept symbols',
       visit content (current_path, symbols) region =
         Ok (kept ++ [mkLevel (key_of content region) (indent_of content region)],
             symbols')).
Proof.
  intros Hb.
  destruct (indent_of_bounds content region Hb) as (Hrange & Hnone & Hstart).
  repeat split; try lia; auto.
  - intros Hnl.
    destruct (Z.eq_dec (indent_of content region) 0) as [|Hne]; [assumption|].
    exfalso. apply (Hnone (begin region - 1)); [lia|exact Hnl].
  - intros current_path symbols.
    destruct (visit_spec content current_path symbols region)
      as (kept & popped & _ & _ & _ & ->).
    eexists _, _. reflexivity.
Qed.

Lemma indent_is_column_witness :
  0 <= begin (mkRegion 5 6) /\
  0 <= indent_of (buffer doc_siblings) (mkRegion 5 6) <= 5 /\
  indent_of (buffer doc_siblings) (mkRegion 5 6) = 2 /\
  (indent_of (buffer doc_siblings) (mkRegion 5 6) = 5 \/
   char_at (buffer doc_siblings) (5 - indent_of (buffer doc_siblings) (mkRegion 5 6) - 1)
     = Some newline).
Proof.
  assert (H : 0 <= begin (mkRegion 5 6)) by (cbn; lia).
  pose proof (indent_is_column (buffer doc_siblings) (mkRegion 5 6) H)
    as (Hrange & _ & Hstart & _).
  split; [exact H|]. split; [exact Hrange|]. split; [reflexivity|exact Hstart].
Defined.

(** C4: for every token list (sorted or not) the builder returns exactly one
    symbol per token, in input order; the i-th symbol's region is the i-th
    token's region; the empty token list yields the empty output. *)
Theorem one_symbol_per_token view :
  (exists symbols,
     get_yaml_symbols view = Ok symbols /\
     List.length symbols = List.length (find_by_selector view) /\
     map region symbols = find_by_selector view /\
     forall i, option_map region (nth_error symbols i) =
               nth_error (find_by_selector view) i) /\
  get_yaml_symbols (mkView (buffer view) [] (sel view) (lines view)) = Ok [].
Proof.
  split; [|reflexivity].
  rewrite get_yaml_symbols_run.
  destruct (run_Ok (buffer view) (find_by_selector view))
    as (p & symbols & -> & Hmap).
  exists symbols. cbn [bind snd]. repeat split.
  - rewrite <- Hmap at 1. now rewrite length_map.
  - exact Hmap.
  - intros i. rewrite <- Hmap. symmetry. apply nth_error_map.
Qed.

(** C5: the name of the symbol emitted for a token is the dot-separated
    join, root to leaf, of the keys of the frames on the stack once that
    token's frame has been pushed; every such key is the stripped text of a
    token processed so far, and the top key is the stripped text of the
    token itself: the token's raw text without the whitespace it starts and
    ends with. *)
Theorem name_joins_stack_keys content processed token pending sels lns :
  exists stack symbols emitted below,
    run content (processed ++ [token]) = Ok (stack, symbols) /\
    get_yaml_symbols (mkView content (processed ++ token :: pending) sels lns)
      = Ok emitted /\
    nth_error emitted (List.length processed) =
      Some (mkSymbol (py.join "." (map key stack)) token) /\
    Forall (fun frame =>
              exists r, In r (processed ++ [token]) /\
                        key frame = py.strip (py.slice content (begin r) (end_ r)))
           stack /\
    stack = below ++ [mkLevel (py.strip (py.slice content (begin token) (end_ token)))
                              (indent_of content token)] /\
    exists leading trailing,
      py.slice content (begin token) (end_ token) =
        (leading ++ key_of content token ++ trailing)%string /\
      all_space leading /\ all_space trailing /\
      starts_with_space (key_of content token) = false /\
      ends_with_space (key_of content token) = false.
Proof.
  destruct (run_Ok content processed) as (p1 & s1 & Hrun1 & Hmap1).
  destruct (visit_spec content p1 s1 token) as (kept & popped & _ & _ & _ & Hvisit).
  set (stack := kept ++ [level_of content token]) in *.
  assert (Hrun2 : run content (processed ++ [token]) =
                  Ok (stack, s1 ++ [symbol_of stack token])).
  { rewrite run_snoc, Hrun1. exact Hvisit. }
  destruct (for_each_visit content pending stack (s1 ++ [symbol_of stack token]))
    as (p3 & rest & Hrun3 & _).
  exists stack, (s1 ++ [symbol_of stack token]),
         ((s1 ++ [symbol_of stack token]) ++ rest), kept.
  split; [exact Hrun2|]. split; [|split; [|split]].
  - rewrite get_yaml_symbols_run. cbn [buffer find_by_selector].
    replace (processed ++ token :: pending) with ((processed ++ [token]) ++ pending)
      by now rewrite <- app_assoc.
    rewrite run_app, Hrun2. cbn [bind]. now rewrite Hrun3.
  - rewrite <- app_assoc. rewrite nth_error_app2;
      rewrite <- Hmap1, length_map; [|lia].
    now rewrite Nat.sub_diag.
  - pose proof (level_invariant content (processed ++ [token]) (processed ++ [token])
                  ([], []) (stack, s1 ++ [symbol_of stack token])
                  (incl_refl _) (Forall_nil _) Hrun2) as Hinv.
    cbn [fst] in Hinv. eapply Forall_impl; [|exact Hinv].
    cbn. intros frame (r & Hr & ->). now exists r.
  - split; [reflexivity|]. apply strip_spec.
Qed.

(** C8: the builder is total and never raises: for every view, whatever the
    order or overlap of its tokens, it returns a symbol list; each token is
    processed to completion from every state, and the pop loop finishes
    within its fuel and with any larger fuel, with the same result. *)
Theorem get_yaml_symbols_total view :
  (exists symbols, get_yaml_symbols view = Ok symbols) /\
  (forall content st region, exists st', visit content st region = Ok st') /\
  (forall indent_level current_path extra,
     exists kept,
       pop_levels (pop_fuel current_path + extra) indent_level current_path
         = Ok kept /\
       pop_levels (pop_fuel current_path) indent_level current_path = Ok kept).
Proof.
  split; [|split].
  - rewrite get_yaml_symbols_run.
    destruct (run_Ok (buffer view) (find_by_selector view)) as (p & s & -> & _).
    now exists s.
  - intros content [p s] region.
    destruct (visit_spec content p s region) as (kept & popped & _ & _ & _ & ->).
    eexists; reflexivity.
  - intros indent_level current_path extra.
    destruct (pop_levels_spec indent_level current_path (pop_fuel current_path))
      as (kept & popped & _ & _ & _ & Hrun); [unfold pop_fuel; lia|].
    exists kept. split; [|exact Hrun].
    rewrite pop_levels_fuel; [exact Hrun|unfold pop_fuel; lia].
Qed.

(** C9: after each token of a run has been processed, the indents of the
    frames on the stack are strictly increasing from bottom to top; each
    frame is pushed onto a stack that is empty or whose top frame has a
    strictly smaller indent. *)
Theorem stack_indents_increasing content processed token pending :
  exists current_path symbols kept symbols',
    run content processed = Ok (current_path, symbols) /\
    increasing current_path /\
    run content (processed ++ [token]) =
      Ok (kept ++ [level_of content token], symbols') /\
    shallower_top (indent (level_of content token)) kept /\
    increasing (kept ++ [level_of content token]) /\
    run content (processed ++ token :: pending) =
      py.for_each (visit content) pending
                  (kept ++ [level_of content token], symbols').
Proof.
  destruct (run_Ok content processed) as (p1 & s1 & Hrun1 & _).
  destruct (visit_spec content p1 s1 token) as (kept & popped & _ & _ & Hk & Hvisit).
  assert (Hrun2 : run content (processed ++ [token]) =
                  Ok (kept ++ [level_of content token],
                      s1 ++ [symbol_of (kept ++ [level_of content token]) token])).
  { rewrite run_snoc, Hrun1. exact Hvisit. }
  exists p1, s1, kept, (s1 ++ [symbol_of (kept ++ [level_of content token]) token]).
  split; [exact Hrun1|]. split; [eapply run_increasing; eauto|].
  split; [exact Hrun2|]. split; [exact Hk|].
  split; [eapply run_increasing; eauto|].
  replace (processed ++ token :: pending) with ((processed ++ [token]) ++ pending)
    by now rewrite <- app_assoc.
  now rewrite run_app, Hrun2.
Qed.

(** ** The resolver *)

Example nested_symbols_built : get_yaml_symbols doc_nested = Ok nested_symbols.
Proof. reflexivity. Qed.

Section ResolverFacts.

Variable intersects : Region -> Region -> bool.

(** The inner loop returns the first remaining symbol that intersects the
    probe. *)
Lemma scan_symbols_find probe yaml_symbols :
  fst (scan_symbols intersects probe yaml_symbols) =
  find (hits intersects probe) yaml_symbols.
Proof.
  induction yaml_symbols as [|symbol rest IH]; cbn; [reflexivity|].
  unfold hits at 1. now destruct (intersects probe (region symbol)).
Qed.

(** An inner loop that returns nothing leaves the iterator exhausted. *)
Lemma scan_symbols_exhausts probe yaml_symbols :
  fst (scan_symbols intersects probe yaml_symbols) = None ->
  snd (scan_symbols intersects probe yaml_symbols) = [].
Proof.
  induction yaml_symbols as [|symbol rest IH]; cbn; [reflexivity|].
  destruct (intersects probe (region symbol)); [discriminate|exact IH].
Qed.

(** On an exhausted iterator no probe finds anything. *)
Lemma scan_regions_exhausted regions :
  scan_regions intersects regions [] = None.
Proof. induction regions as [|probe rest IH]; cbn; auto. Qed.

(** Only the first probe region ever sees the symbols. *)
Lemma scan_regions_first probe regions yaml_symbols :
  scan_regions intersects (probe :: regions) yaml_symbols =
  find (hits intersects probe) yaml_symbols.
Proof.
  cbn [scan_regions].
  pose proof (scan_symbols_find probe yaml_symbols) as Hfind.
  pose proof (scan_symbols_exhausts probe yaml_symbols) as Hrest.
  destruct (scan_symbols intersects probe yaml_symbols) as [[symbol|] rest];
    cbn [fst snd] in *.
  - now rewrite <- Hfind.
  - rewrite Hrest by reflexivity. rewrite <- Hfind. apply scan_regions_exhausted.
Qed.

Lemma iter_regions_single view selection :
  sel view = [selection] ->
  iter_regions view =
  caret_probe selection :: selection :: lines view selection.
Proof.
  intros Hsel. unfold iter_regions. rewrite Hsel. cbn.
  now rewrite app_nil_r.
Qed.

(** With one selection the result is that of the caret probe alone. *)
Lemma get_selected_single symbols view selection :
  sel view = [selection] ->
  get_selected_yaml_symbol intersects symbols view =
  find (hits intersects (caret_probe selection)) (rev symbols).
Proof.
  intros Hsel. unfold get_selected_yaml_symbol.
  destruct symbols as [|symbol symbols]; [reflexivity|].
  rewrite Hsel. cbn [List.length Z.of_nat Pos.of_succ_nat Z.eqb Pos.eqb negb].
  rewrite (iter_regions_single view selection Hsel).
  apply scan_regions_first.
Qed.

Lemma find_skip (f : Symbol -> bool) skipped symbol rest :
  Forall (fun s => f s = false) skipped -> f symbol = true ->
  find f (skipped ++ symbol :: rest) = Some symbol.
Proof.
  induction 1 as [|x l Hx _ IH]; intros Hhit; cbn.
  - now rewrite Hhit.
  - rewrite Hx. auto.
Qed.

Lemma find_last (f : Symbol -> bool) earlier symbol later :
  f symbol = true -> Forall (fun s => f s = false) later ->
  find f (rev (earlier ++ symbol :: later)) = Some symbol.
Proof.
  intros Hhit Hlater. rewrite rev_app_distr. cbn [rev]. rewrite <- app_assoc.
  cbn [app]. apply find_skip; [|exact Hhit].
  apply Forall_rev. exact Hlater.
Qed.

Lemma scan_regions_In regions :
  forall yaml_symbols symbol,
    scan_regions intersects regions yaml_symbols = Some symbol ->
    In symbol yaml_symbols.
Proof.
  destruct regions as [|probe regions]; intros yaml_symbols symbol;
    [discriminate|].
  rewrite scan_regions_first. intros Hfind.
  now apply find_some in Hfind.
Qed.

(** When the caret probe intersects nothing, nothing is returned: the
    selection and its lines are tested against an exhausted iterator. *)
Lemma caret_miss_returns_none symbols view selection :
  sel view = [selection] ->
  Forall (fun s => intersects (caret_probe selection) (region s) = false) symbols ->
  get_selected_yaml_symbol intersects symbols view = None.
Proof.
  intros Hsel Hmiss. rewrite (get_selected_single symbols view selection Hsel).
  apply Forall_rev in Hmiss.
  induction Hmiss as [|x l Hx _ IH]; cbn; [reflexivity|].
  unfold hits at 1. now rewrite Hx.
Qed.

(** ** The claims about the resolver *)

(** C6: with exactly one selection whose caret probe intersects one or
    more symbols, the resolver returns the last symbol of the list that
    intersects it, whatever intersects earlier in the list. *)
Theorem caret_probe_returns_last_hit symbols view selection earlier symbol later :
  sel view = [selection] ->
  symbols = earlier ++ symbol :: later ->
  intersects (caret_probe selection) (region symbol) = true ->
  Forall (fun s => intersects (caret_probe selection) (region s) = false) later ->
  get_selected_yaml_symbol intersects symbols view = Some symbol.
Proof.
  intros Hsel -> Hhit Hlater.
  rewrite (get_selected_single _ view selection Hsel).
  now apply find_last.
Qed.

(** C7: the resolver returns none for the empty symbol list, and returns
    none whenever the view does not have exactly one selection, whatever
    the symbol list holds. *)
Theorem none_without_symbols_or_single_selection :
  (forall view, get_selected_yaml_symbol intersects [] view = None) /\
  (forall symbols view,
     List.length (sel view) <> 1%nat ->
     get_selected_yaml_symbol intersects symbols view = None).
Proof.
  split; [reflexivity|].
  intros symbols view Hlen. unfold get_selected_yaml_symbol.
  destruct symbols as [|symbol symbols]; [reflexivity|].
  replace (Z.of_nat (List.length (sel view)) =? 1) with false; [reflexivity|].
  symmetry. apply Z.eqb_neq. lia.
Qed.

(** C10: a symbol returned by the resolver is an element of the symbol
    list it was given. *)
Theorem selected_symbol_is_listed symbols view symbol :
  get_selected_yaml_symbol intersects symbols view = Some symbol ->
  In symbol symbols.
Proof.
  unfold get_selected_yaml_symbol.
  destruct symbols as [|first symbols]; [discriminate|].
  destruct (negb (Z.of_nat (List.length (sel view)) =? 1)); [discriminate|].
  intros Hscan. apply scan_regions_In in Hscan.
  unfold reversed in Hscan. now apply in_rev in Hscan.
Qed.

End ResolverFacts.

Lemma caret_probe_returns_last_hit_witness :
  sel doc_nested = [mkRegion 7 7] /\
  region_intersects (caret_probe (mkRegion 7 7)) (mkRegion 0 11) = true /\
  region_intersects (caret_probe (mkRegion 7 7)) (mkRegion 6 8) = true /\
  get_selected_yaml_symbol region_intersects overlapping_symbols doc_nested =
    Some (mkSymbol "ab.cd" (mkRegion 6 8)).
Proof.
  split; [reflexivity|]. split; [reflexivity|]. split; [reflexivity|].
  apply (caret_probe_returns_last_hit region_intersects overlapping_symbols
           doc_nested (mkRegion 7 7)
           [mkSymbol "ab" (mkRegion 0 11)] (mkSymbol "ab.cd" (mkRegion 6 8)) []).
  - reflexivity.
  - reflexivity.
  - reflexivity.
  - constructor.
Defined.

Lemma none_without_symbols_or_single_selection_witness :
  List.length (sel doc_two_carets) <> 1%nat /\
  List.length (sel doc_no_caret) <> 1%nat /\
  get_selected_yaml_symbol region_intersects nested_symbols doc_two_carets = None /\
  get_selected_yaml_symbol region_intersects nested_symbols doc_no_caret = None.
Proof.
  assert (H2 : List.length (sel doc_two_carets) <> 1%nat) by (cbn; lia).
  assert (H0 : List.length (sel doc_no_caret) <> 1%nat) by (cbn; lia).
  split; [exact H2|]. split; [exact H0|]. split.
  - apply (proj2 (none_without_symbols_or_single_selection region_intersects)
             nested_symbols doc_two_carets H2).
  - apply (proj2 (none_without_symbols_or_single_selection region_intersects)
             nested_symbols doc_no_caret H0).
Defined.

Lemma selected_symbol_is_listed_witness :
  get_selected_yaml_symbol region_intersects nested_symbols doc_nested =
    Some (mkSymbol "ab.cd" (mkRegion 6 8)) /\
  In (mkSymbol "ab.cd" (mkRegion 6 8)) nested_symbols.
Proof.
  split; [reflexivity|].
  apply (selected_symbol_is_listed region_intersects nested_symbols doc_nested).
  reflexivity.
Defined.

(** C1, as the code runs: the reversed symbol list is one iterator shared by
    all probe regions, so once the caret probe has been tested against every
    symbol without a hit, the selection and its lines are tested against
    nothing.  With the caret on the value of the line [key: 1] the line
    intersects the symbol, and with the word [key] selected the selection
    intersects it; the resolution worded by the specification returns the
    symbol in both cases, and [get_selected_yaml_symbol] returns none. *)
Theorem later_probes_find_nothing :
  let key_symbol := mkSymbol "key" (mkRegion 0 3) in
  (get_yaml_symbols doc_caret_on_value = Ok [key_symbol] /\
   iter_regions doc_caret_on_value =
     [mkRegion 6 6; mkRegion 6 6; mkRegion 0 6] /\
   region_intersects (mkRegion 6 6) (region key_symbol) = false /\
   region_intersects (mkRegion 0 6) (region key_symbol) = true /\
   resolve_as_specified region_intersects
     (iter_regions doc_caret_on_value) [key_symbol] = Some key_symbol /\
   get_selected_yaml_symbol region_intersects [key_symbol]
     doc_caret_on_value = None) /\
  (get_yaml_symbols doc_key_selected = Ok [key_symbol] /\
   iter_regions doc_key_selected =
     [mkRegion 3 3; mkRegion 0 3; mkRegion 0 6] /\
   region_intersects (mkRegion 3 3) (region key_symbol) = false /\
   region_intersects (mkRegion 0 3) (region key_symbol) = true /\
   resolve_as_specified region_intersects
     (iter_regions doc_key_selected) [key_symbol] = Some key_symbol /\
   get_selected_yaml_symbol region_intersects [key_symbol]
     doc_key_selected = None).
Proof. cbv zeta. repeat split; vm_compute; reflexivity. Qed.

(** ** More about the path builder *)

Lemma subseq_refl {A : Type} (l : list A) : subseq l l.
Proof. induction l; [apply subseq_nil|now apply subseq_keep]. Qed.

Lemma subseq_nil_l {A : Type} (l : list A) : subseq [] l.
Proof. induction l; [apply subseq_nil|now apply subseq_skip]. Qed.

Lemma subseq_prefix {A : Type} (kept dropped all : list A) :
  subseq (kept ++ dropped) all -> subseq kept all.
Proof.
  revert kept. induction all as [|x all IH]; intros kept H.
  - inversion H as [E| |]. symmetry in E. apply app_eq_nil in E as [-> _].
    constructor.
  - destruct kept as [|k kept]; [apply subseq_nil_l|].
    cbn in H. inversion H; subst.
    + apply subseq_skip. apply (IH (k :: kept)). assumption.
    + apply subseq_keep. apply IH. assumption.
Qed.

Lemma subseq_snoc {A : Type} (kept all : list A) (x : A) :
  subseq kept all -> subseq (kept ++ [x]) (all ++ [x]).
Proof.
  induction 1; cbn.
  - apply subseq_keep, subseq_nil.
  - now apply subseq_skip.
  - now apply subseq_keep.
Qed.

Lemma subseq_length {A : Type} (kept all : list A) :
  subseq kept all -> (List.length kept <= List.length all)%nat.
Proof. induction 1; cbn; lia. Qed.

(** The stack holds the frames of some of the tokens processed, in their
    order. *)
Lemma stack_subseq content regions :
  forall current_path symbols current_path' symbols' earlier ancestors,
    subseq ancestors earlier ->
    current_path = map (level_of content) ancestors ->
    py.for_each (visit content) regions (current_path, symbols)
      = Ok (current_path', symbols') ->
    exists ancestors',
      subseq ancestors' (earlier ++ regions) /\
      current_path' = map (level_of content) ancestors'.
Proof.
  induction regions as [|r regions IH];
    intros p s p' s' earlier ancestors Hsub Hp; cbn [py.for_each].
  - intros [= <- <-]. exists ancestors. now rewrite app_nil_r.
  - destruct (visit_spec content p s r) as (kept & popped & E & _ & _ & ->).
    cbn [bind]. intros Hrun.
    rewrite Hp in E. apply map_eq_app in E as (ka & pa & -> & Hk & Hpop).
    apply subseq_prefix in Hsub.
    apply (IH _ _ _ _ (earlier ++ [r]) (ka ++ [r])) in Hrun.
    + now rewrite <- app_assoc in Hrun.
    + now apply subseq_snoc.
    + rewrite map_app. cbn. now rewrite Hk.
Qed.

(** The symbol emitted for the token at a given position. *)
Lemma emitted_at content processed token pending sels lns stack symbols :
  run content (processed ++ [token]) = Ok (stack, symbols) ->
  exists emitted,
    get_yaml_symbols (mkView content (processed ++ token :: pending) sels lns)
      = Ok emitted /\
    nth_error emitted (List.length processed) = Some (symbol_of stack token).
Proof.
  intros Hrun2.
  destruct (run_Ok content processed) as (p1 & s1 & Hrun1 & Hmap1).
  destruct (visit_spec content p1 s1 token) as (kept & popped & _ & _ & _ & Hvisit).
  rewrite run_snoc, Hrun1 in Hrun2. cbn [bind] in Hrun2.
  rewrite Hvisit in Hrun2. injection Hrun2 as <- <-.
  set (stack := kept ++ [level_of content token]).
  destruct (for_each_visit content pending stack (s1 ++ [symbol_of stack token]))
    as (p3 & rest & Hrun3 & _).
  exists ((s1 ++ [symbol_of stack token]) ++ rest). split.
  - rewrite get_yaml_symbols_run. cbn [buffer find_by_selector].
    replace (processed ++ token :: pending) with ((processed ++ [token]) ++ pending)
      by now rewrite <- app_assoc.
    rewrite run_app, run_snoc, Hrun1. cbn [bind]. rewrite Hvisit. cbn [bind].
    fold stack. now rewrite Hrun3.
  - rewrite <- app_assoc. rewrite nth_error_app2;
      rewrite <- Hmap1, length_map; [|lia].
    now rewrite Nat.sub_diag.
Qed.

Lemma string_app_assoc (x y z : string) :
  ((x ++ y) ++ z)%string = (x ++ y ++ z)%string.
Proof. induction x as [|c x IH]; cbn; [reflexivity|now rewrite IH]. Qed.

Lemma join_snoc (sep : string) (items : list string) (x : string) :
  items <> [] ->
  py.join sep (items ++ [x]) = (py.join sep items ++ sep ++ x)%string.
Proof.
  unfold py.join.
  induction items as [|y items IH]; [congruence|]. intros _.
  destruct items as [|z items].
  - cbn. reflexivity.
  - cbn [app String.concat] in *. rewrite IH by discriminate.
    now rewrite !string_app_assoc.
Qed.

(** A token at least as deep as [indent_level] leaves alone a base of the
    stack whose top is shallower than [indent_level]. *)
Lemma visit_above_base content base extra symbols region indent_level :
  shallower_top indent_level base ->
  indent_level <= indent_of content region ->
  exists extra1 dropped,
    extra = extra1 ++ dropped /\
    visit content (base ++ extra, symbols) region =
      Ok (base ++ extra1 ++ [level_of content region],
          symbols ++ [symbol_of (base ++ extra1 ++ [level_of content region]) region]).
Proof.
  intros Hbase Hle.
  destruct (visit_spec content (base ++ extra) symbols region)
    as (kept & popped & E & Hpop & _ & ->).
  apply app_eq_app in E as [l [[E1 E2]|[E1 E2]]].
  - destruct l as [|t l _] using rev_ind.
    + rewrite app_nil_r in E1. subst kept. cbn in E2. subst popped.
      exists [], extra. split; reflexivity.
    + exfalso. subst base popped. rewrite app_assoc in Hbase.
      apply shallower_top_app in Hbase.
      apply Forall_app in Hpop as [Hpop _]. apply Forall_app in Hpop as [_ Ht].
      inversion Ht; subst. unfold deeper in *. lia.
  - subst kept. exists l, popped. split; [exact E2|].
    now rewrite <- !app_assoc.
Qed.

Lemma between_keeps_base content between :
  forall base extra symbols indent_level,
    shallower_top indent_level base ->
    Forall (deeper indent_level) extra ->
    Forall (fun r => indent_level <= indent_of content r) between ->
    exists extra' emitted,
      py.for_each (visit content) between (base ++ extra, symbols) =
        Ok (base ++ extra', symbols ++ emitted) /\
      Forall (deeper indent_level) extra'.
Proof.
  induction between as [|r between IH];
    intros base extra symbols i Hbase Hextra Hall; cbn [py.for_each].
  - exists extra, []. now rewrite app_nil_r.
  - inversion Hall as [|? ? Hr Hrest]; subst.
    destruct (visit_above_base content base extra symbols r i Hbase Hr)
      as (extra1 & dropped & -> & ->). cbn [bind].
    apply Forall_app in Hextra as [Hextra1 _].
    destruct (IH base (extra1 ++ [level_of content r])
                 (symbols ++ [symbol_of (base ++ extra1 ++ [level_of content r]) r])
                 i Hbase) as (extra' & emitted & Hrun & Hdeep); auto.
    { apply Forall_app; split; [assumption|]. repeat constructor. exact Hr. }
    exists extra', (symbol_of (base ++ extra1 ++ [level_of content r]) r :: emitted).
    split; [|exact Hdeep]. rewrite Hrun. now rewrite <- app_assoc.
Qed.

Lemma frames_of_processed content regions current_path symbols :
  run content regions = Ok (current_path, symbols) ->
  Forall (fun frame => exists r, In r regions /\ frame = level_of content r)
         current_path.
Proof.
  intros Hrun.
  apply (level_invariant content regions regions ([], []) (current_path, symbols));
    auto using incl_refl.
Qed.

Lemma names_by_levels content1 content2 regions1 :
  forall regions2 current_path symbols1 symbols2,
    map (level_of content1) regions1 = map (level_of content2) regions2 ->
    map name symbols1 = map name symbols2 ->
    exists current_path' symbols1' symbols2',
      py.for_each (visit content1) regions1 (current_path, symbols1)
        = Ok (current_path', symbols1') /\
      py.for_each (visit content2) regions2 (current_path, symbols2)
        = Ok (current_path', symbols2') /\
      map name symbols1' = map name symbols2'.
Proof.
  induction regions1 as [|r1 regions1 IH];
    intros [|r2 regions2] p s1 s2 Hlev Hnames; try discriminate.
  - now exists p, s1, s2.
  - cbn [map] in Hlev.
    assert (Hlv : level_of content1 r1 = level_of content2 r2)
      by exact (f_equal (hd (level_of content1 r1)) Hlev).
    assert (Hrest : map (level_of content1) regions1 =
                    map (level_of content2) regions2)
      by exact (f_equal (@tl Level) Hlev).
    assert (Hind : indent_of content1 r1 = indent_of content2 r2)
      by exact (f_equal indent Hlv).
    cbn [py.for_each].
    destruct (visit_spec content1 p s1 r1) as (k1 & p1 & E1 & Hp1 & Hk1 & ->).
    destruct (visit_spec content2 p s2 r2) as (k2 & p2 & E2 & Hp2 & Hk2 & ->).
    cbn [bind]. rewrite <- Hind in Hp2, Hk2.
    assert (k1 = k2) as <-.
    { apply (pop_split_unique (indent_of content1 r1) k1 p1 k2 p2); auto.
      congruence. }
    rewrite <- Hlv. apply IH; [exact Hrest|].
    rewrite !map_app, Hnames. reflexivity.
Qed.

(** X1: the parent of a key is the nearest earlier key that is strictly
    shallower.  When a token follows an earlier token of strictly smaller
    indent, and every token between the two is at least as deep as the later
    one, the later token's name is the earlier token's name, a dot, and the
    later token's own key. *)
Theorem child_name_extends_parent
        content before parent between token pending sels lns :
  indent_of content parent < indent_of content token ->
  Forall (fun r => indent_of content token <= indent_of content r) between ->
  exists emitted parent_name,
    get_yaml_symbols
      (mkView content ((before ++ parent :: between) ++ token :: pending) sels lns)
      = Ok emitted /\
    nth_error emitted (List.length before) = Some (mkSymbol parent_name parent) /\
    nth_error emitted (List.length (before ++ parent :: between)) =
      Some (mkSymbol (parent_name ++ "." ++ key_of content token)%string token).
Proof.
  intros Hlt Hbetween.
  destruct (run_Ok content before) as (p0 & s0 & Hrun0 & _).
  destruct (visit_spec content p0 s0 parent) as (kept & popped & _ & _ & _ & Hvisit).
  set (base := kept ++ [level_of content parent]) in *.
  assert (Hbase : shallower_top (indent_of content token) base)
    by (apply shallower_top_app; exact Hlt).
  assert (HrunP : run content (before ++ [parent]) =
                  Ok (base, s0 ++ [symbol_of base parent])).
  { rewrite run_snoc, Hrun0. exact Hvisit. }
  destruct (between_keeps_base content between base [] (s0 ++ [symbol_of base parent])
              (indent_of content token) Hbase (Forall_nil _) Hbetween)
    as (extra & emitted1 & HrunB & Hdeep).
  rewrite app_nil_r in HrunB.
  destruct (visit_spec content (base ++ extra)
              ((s0 ++ [symbol_of base parent]) ++ emitted1) token)
    as (kept' & popped' & E & Hp' & Hk' & HvisitT).
  assert (kept' = base) as ->.
  { apply (pop_split_unique (indent_of content token) kept' popped' base extra);
      auto. }
  set (stack := base ++ [level_of content token]) in *.
  assert (HrunT : run content ((before ++ parent :: between) ++ [token]) =
                  Ok (stack, ((s0 ++ [symbol_of base parent]) ++ emitted1)
                               ++ [symbol_of stack token])).
  { replace (before ++ parent :: between) with ((before ++ [parent]) ++ between)
      by now rewrite <- app_assoc.
    rewrite run_snoc, run_app, HrunP. cbn [bind]. rewrite HrunB. exact HvisitT. }
  destruct (emitted_at content (before ++ parent :: between) token pending
              sels lns _ _ HrunT) as (emitted & Hget & HnthT).
  destruct (emitted_at content before parent (between ++ token :: pending)
              sels lns _ _ HrunP) as (emitted' & Hget' & HnthP).
  replace (before ++ parent :: between ++ token :: pending)
    with ((before ++ parent :: between) ++ token :: pending) in Hget'
    by now rewrite <- app_assoc.
  rewrite Hget in Hget'. injection Hget' as <-.
  exists emitted, (py.join "." (map key base)).
  split; [exact Hget|]. split; [exact HnthP|].
  rewrite HnthT. unfold symbol_of, stack. rewrite map_app. cbn [map].
  rewrite join_snoc; [reflexivity|].
  unfold base. rewrite map_app. intros Hnil. apply app_eq_nil in Hnil as [_ Hnil].
  discriminate.
Qed.

Lemma child_name_extends_parent_witness :
  indent_of (buffer doc_siblings) (mkRegion 0 1) <
    indent_of (buffer doc_siblings) (mkRegion 12 13) /\
  Forall (fun r => indent_of (buffer doc_siblings) (mkRegion 12 13)
                   <= indent_of (buffer doc_siblings) r) [mkRegion 5 6] /\
  exists emitted parent_name,
    get_yaml_symbols doc_siblings = Ok emitted /\
    nth_error emitted 0 = Some (mkSymbol parent_name (mkRegion 0 1)) /\
    nth_error emitted 2 =
      Some (mkSymbol (parent_name ++ "." ++ "c")%string (mkRegion 12 13)).
Proof.
  assert (Hlt : indent_of (buffer doc_siblings) (mkRegion 0 1) <
                indent_of (buffer doc_siblings) (mkRegion 12 13))
    by (vm_compute; reflexivity).
  assert (Hall : Forall (fun r => indent_of (buffer doc_siblings) (mkRegion 12 13)
                                  <= indent_of (buffer doc_siblings) r)
                        [mkRegion 5 6])
    by (repeat constructor; vm_compute; discriminate).
  split; [exact Hlt|]. split; [exact Hall|].
  exact (child_name_extends_parent (buffer doc_siblings) [] (mkRegion 0 1)
           [mkRegion 5 6] (mkRegion 12 13) [] [mkRegion 0 0]
           (fun _ => [mkRegion 0 2]) Hlt Hall).
Defined.

(** X2: a key with no strictly shallower key before it is a root.  When
    every earlier token is at least as deep as a token, that token's name is
    its own key alone; in particular the first token's name is its key. *)
Theorem root_name_is_key content processed token pending sels lns :
  Forall (fun r => indent_of content token <= indent_of content r) processed ->
  exists emitted,
    get_yaml_symbols (mkView content (processed ++ token :: pending) sels lns)
      = Ok emitted /\
    nth_error emitted (List.length processed) =
      Some (mkSymbol (key_of content token) token).
Proof.
  intros Hall.
  destruct (run_Ok content processed) as (p1 & s1 & Hrun1 & _).
  assert (Hdeep : Forall (deeper (indent_of content token)) p1).
  { pose proof (frames_of_processed content processed p1 s1 Hrun1) as Hfr.
    rewrite Forall_forall in *. intros frame Hin.
    destruct (Hfr frame Hin) as (r & Hr & ->). apply (Hall r Hr). }
  destruct (visit_spec content p1 s1 token) as (kept & popped & E & Hp & Hk & Hvisit).
  assert (kept = []) as ->.
  { apply (pop_split_unique (indent_of content token) kept popped [] p1);
      auto using shallower_top_nil. }
  assert (Hrun2 : run content (processed ++ [token]) =
                  Ok ([level_of content token],
                      s1 ++ [symbol_of [level_of content token] token])).
  { rewrite run_snoc, Hrun1. exact Hvisit. }
  destruct (emitted_at content processed token pending sels lns _ _ Hrun2)
    as (emitted & Hget & Hnth).
  exists emitted. split; [exact Hget|]. rewrite Hnth. reflexivity.
Qed.

Lemma root_name_is_key_witness :
  Forall (fun r => indent_of (buffer doc_dedent) (mkRegion 10 11)
                   <= indent_of (buffer doc_dedent) r)
         [mkRegion 0 1; mkRegion 5 6] /\
  exists emitted,
    get_yaml_symbols doc_dedent = Ok emitted /\
    nth_error emitted 2 = Some (mkSymbol "c" (mkRegion 10 11)).
Proof.
  assert (Hall : Forall (fun r => indent_of (buffer doc_dedent) (mkRegion 10 11)
                                  <= indent_of (buffer doc_dedent) r)
                        [mkRegion 0 1; mkRegion 5 6])
    by (repeat constructor; vm_compute; discriminate).
  split; [exact Hall|].
  exact (root_name_is_key (buffer doc_dedent) [mkRegion 0 1; mkRegion 5 6]
           (mkRegion 10 11) [] [mkRegion 0 0] (fun _ => [mkRegion 0 2]) Hall).
Defined.

(** X3: a key's path does not depend on what follows it, nor on the
    selection.  The symbols built for a buffer's first tokens are the first
    symbols built for those tokens followed by any further tokens of the same
    buffer, whatever the selections and lines of the two views. *)
Theorem earlier_symbols_unchanged content processed pending sels lns sels' lns' :
  exists early late,
    get_yaml_symbols (mkView content processed sels lns) = Ok early /\
    get_yaml_symbols (mkView content (processed ++ pending) sels' lns')
      = Ok (early ++ late) /\
    map region late = pending.
Proof.
  destruct (run_Ok content processed) as (p1 & s1 & Hrun1 & _).
  destruct (for_each_visit content pending p1 s1) as (p2 & late & Hrun2 & Hmap).
  exists s1, late. rewrite !get_yaml_symbols_run. cbn [buffer find_by_selector].
  rewrite run_app, Hrun1. cbn [bind]. rewrite Hrun2. auto.
Qed.

(** X4: the names depend on the tokens' stripped keys and columns only.  Two
    views whose tokens have the same keys and the same indents, in the same
    order, get the same list of names, whatever else their buffers hold. *)
Theorem names_depend_on_levels view1 view2 :
  map (level_of (buffer view1)) (find_by_selector view1) =
  map (level_of (buffer view2)) (find_by_selector view2) ->
  exists symbols1 symbols2,
    get_yaml_symbols view1 = Ok symbols1 /\
    get_yaml_symbols view2 = Ok symbols2 /\
    map name symbols1 = map name symbols2.
Proof.
  intros Hlev.
  destruct (names_by_levels (buffer view1) (buffer view2) (find_by_selector view1)
              (find_by_selector view2) [] [] [] Hlev eq_refl)
    as (p & s1 & s2 & H1 & H2 & Hnames).
  exists s1, s2. rewrite !get_yaml_symbols_run. unfold run. rewrite H1, H2. auto.
Qed.

Lemma names_depend_on_levels_witness :
  buffer doc_siblings <> buffer doc_siblings_other_values /\
  map (level_of (buffer doc_siblings)) (find_by_selector doc_siblings) =
  map (level_of (buffer doc_siblings_other_values))
      (find_by_selector doc_siblings_other_values) /\
  exists symbols1 symbols2,
    get_yaml_symbols doc_siblings = Ok symbols1 /\
    get_yaml_symbols doc_siblings_other_values = Ok symbols2 /\
    map name symbols1 = map name symbols2.
Proof.
  split; [vm_compute; discriminate|]. split; [vm_compute; reflexivity|].
  apply (names_depend_on_levels doc_siblings doc_siblings_other_values).
  vm_compute. reflexivity.
Defined.

(** X5: a name is made of keys of earlier tokens, in document order and with
    strictly increasing indents, followed by the token's own key; the builder
    never invents, repeats or reorders a path component, and a path is never
    longer than the number of tokens read so far. *)
Theorem name_components_are_earlier_keys content processed token pending sels lns :
  exists ancestors emitted,
    subseq ancestors processed /\
    increasing (map (level_of content) (ancestors ++ [token])) /\
    (List.length (ancestors ++ [token]) <= List.length (processed ++ [token]))%nat /\
    get_yaml_symbols (mkView content (processed ++ token :: pending) sels lns)
      = Ok emitted /\
    nth_error emitted (List.length processed) =
      Some (mkSymbol (py.join "." (map (key_of content) (ancestors ++ [token])))
                     token).
Proof.
  destruct (run_Ok content processed) as (p1 & s1 & Hrun1 & _).
  destruct (stack_subseq content processed [] [] p1 s1 [] []
              (subseq_nil) eq_refl Hrun1) as (anc1 & Hsub1 & Hp1).
  cbn [app] in Hsub1.
  destruct (visit_spec content p1 s1 token) as (kept & popped & E & _ & _ & Hvisit).
  rewrite Hp1 in E. apply map_eq_app in E as (ka & pa & -> & Hka & _).
  apply subseq_prefix in Hsub1.
  assert (Hrun2 : run content (processed ++ [token]) =
                  Ok (map (level_of content) (ka ++ [token]),
                      s1 ++ [symbol_of (map (level_of content) (ka ++ [token])) token])).
  { rewrite run_snoc, Hrun1. cbn [bind]. rewrite Hvisit.
    rewrite map_app. cbn [map]. now rewrite Hka. }
  destruct (emitted_at content processed token pending sels lns _ _ Hrun2)
    as (emitted & Hget & Hnth).
  exists ka, emitted. split; [exact Hsub1|].
  split; [eapply run_increasing; exact Hrun2|].
  split; [rewrite !length_app; cbn; apply subseq_length in Hsub1; lia|].
  split; [exact Hget|]. rewrite Hnth. unfold symbol_of.
  rewrite map_map. reflexivity.
Qed.

(** ** More about the resolver *)

Section ResolverMore.

Variable intersects : Region -> Region -> bool.

(** X6: a symbol is only returned for a view with exactly one selection, and
    its region intersects one of the probe regions of that view. *)
Theorem selected_symbol_intersects_probe symbols view symbol :
  get_selected_yaml_symbol intersects symbols view = Some symbol ->
  List.length (sel view) = 1%nat /\
  exists probe,
    In probe (iter_regions view) /\ intersects probe (region symbol) = true.
Proof.
  unfold get_selected_yaml_symbol.
  destruct symbols as [|first symbols]; [discriminate|].
  destruct (Z.of_nat (List.length (sel view)) =? 1) eqn:Hlen;
    cbn [negb]; [|discriminate].
  apply Z.eqb_eq in Hlen. intros Hscan. split; [lia|].
  destruct (iter_regions view) as [|probe regions]; [discriminate|].
  rewrite scan_regions_first in Hscan. apply find_some in Hscan as [_ Hhit].
  exists probe. split; [now left|exact Hhit].
Qed.

End ResolverMore.

Lemma selected_symbol_intersects_probe_witness :
  get_selected_yaml_symbol region_intersects nested_symbols doc_nested =
    Some (mkSymbol "ab.cd" (mkRegion 6 8)) /\
  List.length (sel doc_nested) = 1%nat /\
  exists probe,
    In probe (iter_regions doc_nested) /\
    region_intersects probe (mkRegion 6 8) = true.
Proof.
  split; [reflexivity|].
  apply (selected_symbol_intersects_probe region_intersects nested_symbols
           doc_nested (mkSymbol "ab.cd" (mkRegion 6 8))).
  reflexivity.
Defined.

(** ** The language tag *)

Lemma plain_cons c s :
  plain (String c s) <-> (c <> "."%char /\ c <> newline) /\ plain s.
Proof.
  unfold plain. cbn [list_ascii_of_string]. split.
  - intros H. inversion H; subst. auto.
  - intros [Hc Hs]. constructor; assumption.
Qed.

Lemma after_first_dot_plain (k rest : string) :
  plain k -> after_first_dot (k ++ String "."%char rest) = Some rest.
Proof.
  induction k as [|c k IH]; intros Hk; cbn [String.append after_first_dot].
  - reflexivity.
  - apply plain_cons in Hk as [[Hdot Hnl] Hk].
    apply Ascii.eqb_neq in Hdot. apply Ascii.eqb_neq in Hnl.
    rewrite Hdot, Hnl. auto.
Qed.

Lemma after_first_dot_none (s : string) :
  plain s -> after_first_dot s = None.
Proof.
  induction s as [|c s IH]; intros Hs; cbn [after_first_dot]; [reflexivity|].
  apply plain_cons in Hs as [[Hdot Hnl] Hs].
  apply Ascii.eqb_neq in Hdot. apply Ascii.eqb_neq in Hnl.
  rewrite Hdot, Hnl. auto.
Qed.



(** X7: trimming the language tag drops the first key of a path and its
    dot, and leaves a one-key path alone.  For a first key that is not empty
    and holds neither a dot nor a newline, the path of the keys
    [first, second, ...] becomes the path of [second, ...]; text without a
    dot or newline is returned unchanged. *)
Theorem trim_language_tag_drops_first_key :
  (forall first second rest,
     first <> EmptyString -> plain first ->
     trim_language_tag (py.join "." (first :: second :: rest)) =
       py.join "." (second :: rest)) /\
  (forall s, plain s -> trim_language_tag s = s).
Proof.
  split.
  - intros first second rest Hne Hplain.
    unfold py.join. cbn [String.concat].
    destruct first as [|c first]; [congruence|].
    apply plain_cons in Hplain as [[_ Hnl] Hplain].
    apply Ascii.eqb_neq in Hnl.
    cbn [String.append trim_language_tag]. rewrite Hnl.
    now rewrite (after_first_dot_plain first _ Hplain).
  - intros s Hs. destruct s as [|c s]; [reflexivity|].
    apply plain_cons in Hs as [[_ Hnl] Hs]. apply Ascii.eqb_neq in Hnl.
    cbn [trim_language_tag]. rewrite Hnl.
    now rewrite (after_first_dot_none s Hs).
Qed.

Lemma trim_language_tag_drops_first_key_witness :
  "en" <> EmptyString /\ plain "en" /\ plain "title" /\
  trim_language_tag "en.home.title" = "home.title" /\
  trim_language_tag "title" = "title".
Proof.
  assert (Hne : "en" <> EmptyString) by discriminate.
  assert (Hen : plain "en")
    by (repeat constructor; discriminate).
  assert (Ht : plain "title")
    by (repeat constructor; discriminate).
  split; [exact Hne|]. split; [exact Hen|]. split; [exact Ht|]. split.
  - exact (proj1 trim_language_tag_drops_first_key "en" "home" ["title"] Hne Hen).
  - exact (proj2 trim_language_tag_drops_first_key "title" Ht).
Defined.

(** ** The listener and the commands *)

Lemma list_getitem_nth {A : Type} (l : list A) (i : nat) (x : A) :
  nth_error l i = Some x -> list_getitem l (Z.of_nat i) = Ok x.
Proof.
  intros Hnth. unfold list_getitem.
  assert (Hlt : (i < List.length l)%nat)
    by (apply nth_error_Some; congruence).
  replace (Z.of_nat i <? 0) with false by (symmetry; apply Z.ltb_ge; lia).
  replace (0 <=? Z.of_nat i) with true by (symmetry; apply Z.leb_le; lia).
  replace (Z.of_nat i <? Z.of_nat (List.length l)) with true
    by (symmetry; apply Z.ltb_lt; lia).
  cbn [andb]. now rewrite Nat2Z.id, Hnth.
Qed.

Lemma set_status_shown ed symbol :
  set_status ed (Some (name symbol)) = with_status ed (shown (Some symbol)).
Proof. unfold set_status, shown. now destruct (name symbol). Qed.

Section PluginFacts.

Variable intersects : Region -> Region -> bool.
Variable trim_language_tag_on_copy_from_locales : bool.
Variable detect_locale_filename_re : string -> bool.

(** The listener's current symbol after a refresh, and the status shown. *)
Lemma update_current_spec self ed :
  update_current_yaml_symbol intersects self ed =
  let current :=
    get_selected_yaml_symbol intersects (yaml_symbols self) (the_view ed) in
  (mkListener current (yaml_symbols self), with_status ed (shown current)).
Proof.
  unfold update_current_yaml_symbol. cbv zeta. cbn [current_yaml_symbol].
  destruct (get_selected_yaml_symbol intersects (yaml_symbols self) (the_view ed))
    as [symbol|]; [|reflexivity].
  now rewrite set_status_shown.
Qed.

(** A rebuild never fails, and its result depends on the view alone. *)
Lemma rebuild_spec self ed :
  exists symbols,
    get_yaml_symbols (the_view ed) = Ok symbols /\
    update_yaml_symbols intersects None self ed =
      Ok (mkListener (get_selected_yaml_symbol intersects symbols (the_view ed))
                     symbols,
          with_status ed
            (shown (get_selected_yaml_symbol intersects symbols (the_view ed)))).
Proof.
  destruct (run_Ok (buffer (the_view ed)) (find_by_selector (the_view ed)))
    as (p & symbols & Hrun & _).
  assert (Hget : get_yaml_symbols (the_view ed) = Ok symbols)
    by (rewrite get_yaml_symbols_run, Hrun; reflexivity).
  exists symbols. split; [exact Hget|].
  unfold update_yaml_symbols. cbv zeta. rewrite Hget. cbn [bind].
  now rewrite update_current_spec.
Qed.

Lemma timeout_stale count self ed :
  count <> change_count ed ->
  update_yaml_symbols intersects (Some count) self ed = Ok (self, ed).
Proof.
  intros Hne. unfold update_yaml_symbols. cbv zeta.
  now replace (count =? change_count ed) with false
    by (symmetry; apply Z.eqb_neq; exact Hne).
Qed.

Lemma timeout_fresh self ed :
  update_yaml_symbols intersects (Some (change_count ed)) self ed =
  update_yaml_symbols intersects None self ed.
Proof. unfold update_yaml_symbols. cbv zeta. now rewrite Z.eqb_refl. Qed.

Lemma rebuild_again self ed self' ed' :
  update_yaml_symbols intersects None self ed = Ok (self', ed') ->
  update_yaml_symbols intersects None self' ed' = Ok (self', ed') /\
  change_count ed' = change_count ed.
Proof.
  destruct (rebuild_spec self ed) as (symbols & Hget & ->).
  intros [= <- <-]. split; [|reflexivity].
  destruct (rebuild_spec
              (mkListener (get_selected_yaml_symbol intersects symbols (the_view ed))
                          symbols)
              (with_status ed
                 (shown (get_selected_yaml_symbol intersects symbols (the_view ed)))))
    as (symbols' & Hget' & ->).
  cbn [the_view with_status] in *. rewrite Hget in Hget'. injection Hget' as <-.
  reflexivity.
Qed.

Lemma timeouts_after_rebuild captured :
  forall self ed self' ed',
    update_yaml_symbols intersects None self ed = Ok (self', ed') ->
    run_timeouts intersects captured self' ed' = Ok (self', ed').
Proof.
  unfold run_timeouts.
  induction captured as [|count captured IH]; intros self ed self' ed' Hrebuild;
    cbn [py.for_each fst snd]; [reflexivity|].
  destruct (rebuild_again self ed self' ed' Hrebuild) as [Hagain _].
  destruct (Z.eq_dec count (change_count ed')) as [->|Hne].
  - rewrite timeout_fresh, Hagain. cbn [bind]. eapply IH; eauto.
  - rewrite timeout_stale by exact Hne. cbn [bind]. eapply IH; eauto.
Qed.

(** X8: scheduled rebuilds are debounced by the change count.  Running any
    number of scheduled callbacks against an unchanged view leaves the
    listener and the editor untouched when every callback captured a change
    count other than the current one, and otherwise has exactly the effect
    of one rebuild. *)
Theorem stale_timeouts_do_nothing captured self ed :
  run_timeouts intersects captured self ed =
  if existsb (fun count => count =? change_count ed) captured
  then update_yaml_symbols intersects None self ed
  else Ok (self, ed).
Proof.
  revert self ed.
  induction captured as [|count captured IH]; intros self ed; [reflexivity|].
  cbn [existsb]. unfold run_timeouts in *. cbn [py.for_each fst snd].
  destruct (Z.eq_dec count (change_count ed)) as [->|Hne].
  - rewrite Z.eqb_refl. cbn [orb]. rewrite timeout_fresh.
    destruct (rebuild_spec self ed) as (symbols & _ & Hrebuild).
    rewrite Hrebuild. cbn [bind].
    apply (timeouts_after_rebuild captured self ed). exact Hrebuild.
  - rewrite timeout_stale by exact Hne. cbn [bind].
    replace (count =? change_count ed) with false
      by (symmetry; apply Z.eqb_neq; exact Hne).
    cbn [orb]. apply IH.
Qed.

(** X9: the listener keeps the status bar in step with its current symbol.
    Every event handler of the listener runs to completion, leaves the view
    and the clipboard alone, and, when the status bar showed the listener's
    current symbol before, makes it show the current symbol after; a symbol
    with an empty name shows as no status. *)
Theorem status_shows_preserved e self ed :
  status_shows self ed ->
  exists self' ed',
    handle intersects e self ed = Ok (self', ed') /\
    status_shows self' ed' /\
    the_view ed' = the_view ed /\
    clipboard ed' = clipboard ed /\
    change_count ed' = change_count ed.
Proof.
  intros Hshows.
  assert (Hcurrent : exists self' ed',
             update_current_yaml_symbol intersects self ed = (self', ed') /\
             status_shows self' ed' /\ the_view ed' = the_view ed /\
             clipboard ed' = clipboard ed /\ change_count ed' = change_count ed).
  { rewrite update_current_spec. cbv zeta. eexists _, _.
    split; [reflexivity|]. repeat split. }
  assert (Hrebuild : exists self' ed',
             update_yaml_symbols intersects None self ed = Ok (self', ed') /\
             status_shows self' ed' /\ the_view ed' = the_view ed /\
             clipboard ed' = clipboard ed /\ change_count ed' = change_count ed).
  { destruct (rebuild_spec self ed) as (symbols & _ & ->).
    eexists _, _. split; [reflexivity|]. repeat split. }
  assert (Hsame : exists self' ed',
             Ok (self, ed) = Ok (self', ed') /\
             status_shows self' ed' /\ the_view ed' = the_view ed /\
             clipboard ed' = clipboard ed /\ change_count ed' = change_count ed).
  { exists self, ed. repeat split. exact Hshows. }
  destruct e as [| | | |count]; cbn [handle].
  - exact Hrebuild.
  - unfold on_activated_async. destruct (is_loading ed); [exact Hsame|].
    destruct (yaml_symbols self) eqn:Hsyms; [exact Hrebuild|].
    destruct Hcurrent as (self' & ed' & -> & H). now exists self', ed'.
  - unfold on_modified_async, debounce_update_yaml_symbols.
    eexists _, _. split; [reflexivity|]. repeat split. exact Hshows.
  - unfold on_selection_modified_async.
    destruct Hcurrent as (self' & ed' & -> & H). now exists self', ed'.
  - destruct (Z.eq_dec count (change_count ed)) as [->|Hne].
    + rewrite timeout_fresh. exact Hrebuild.
    + rewrite timeout_stale by exact Hne. exact Hsame.
Qed.


(** X11: the entry picked in the quick panel is the symbol jumped to.  The
    panel lists the names of the listener's symbols in order; picking row
    [i] centres the view on the [i]-th symbol's region and leaves exactly
    one, empty, selection one offset past the end of that region, with the
    buffer and its tokens as they were.  Cancelling the panel (index -1)
    changes nothing, and with no symbols there is no panel, only the
    message that none were found. *)
Theorem goto_jumps_to_picked_entry self ed i shown_name :
  nth_error (map name (yaml_symbols self)) i = Some shown_name ->
  exists symbol ed',
    quick_panel (goto_run (Some self) ed) = Some (map name (yaml_symbols self)) /\
    nth_error (yaml_symbols self) i = Some symbol /\
    name symbol = shown_name /\
    goto_on_symbol_selected (Z.of_nat i) (Some self) (goto_run (Some self) ed)
      = Ok ed' /\
    sel (the_view ed') =
      [mkRegion (end_ (region symbol) + 1) (end_ (region symbol) + 1)] /\
    shown_at_center ed' = Some (region symbol) /\
    buffer (the_view ed') = buffer (the_view ed) /\
    find_by_selector (the_view ed') = find_by_selector (the_view ed) /\
    goto_on_symbol_selected (-1) (Some self) (goto_run (Some self) ed)
      = Ok (goto_run (Some self) ed) /\
    goto_run (Some (mkListener (current_yaml_symbol self) [])) ed
      = with_status_message ed "No symbols found".
Proof.
  intros Hrow. rewrite nth_error_map in Hrow.
  destruct (nth_error (yaml_symbols self) i) as [symbol|] eqn:Hnth;
    [|discriminate].
  injection Hrow as Hname.
  assert (Hpanel : goto_run (Some self) ed =
                   with_quick_panel ed (map name (yaml_symbols self))).
  { unfold goto_run. destruct (yaml_symbols self); [|reflexivity].
    destruct i; discriminate. }
  eexists symbol, _. rewrite Hpanel.
  split; [reflexivity|]. split; [reflexivity|]. split; [exact Hname|].
  split.
  { unfold goto_on_symbol_selected.
    replace (Z.of_nat i =? -1) with false by (symmetry; apply Z.eqb_neq; lia).
    rewrite (list_getitem_nth _ _ _ Hnth). cbn [bind]. reflexivity. }
  repeat split.
Qed.

End PluginFacts.

Lemma status_shows_preserved_witness :
  status_shows listener_nested editor_nested /\
  exists self' ed',
    handle region_intersects OnSelectionModified listener_nested editor_nested
      = Ok (self', ed') /\
    status_shows self' ed' /\
    the_view ed' = the_view editor_nested /\
    clipboard ed' = clipboard editor_nested /\
    change_count ed' = change_count editor_nested.
Proof.
  assert (H : status_shows listener_nested editor_nested) by reflexivity.
  split; [exact H|].
  exact (status_shows_preserved region_intersects OnSelectionModified
           listener_nested editor_nested H).
Defined.


Lemma goto_jumps_to_picked_entry_witness :
  nth_error (map name (yaml_symbols listener_nested)) 1 = Some "ab.cd" /\
  exists symbol ed',
    nth_error (yaml_symbols listener_nested) 1 = Some symbol /\
    name symbol = "ab.cd" /\
    goto_on_symbol_selected 1 (Some listener_nested)
      (goto_run (Some listener_nested) editor_nested) = Ok ed' /\
    sel (the_view ed') =
      [mkRegion (end_ (region symbol) + 1) (end_ (region symbol) + 1)].
Proof.
  assert (H : nth_error (map name (yaml_symbols listener_nested)) 1 = Some "ab.cd")
    by reflexivity.
  split; [exact H|].
  destruct (goto_jumps_to_picked_entry listener_nested editor_nested 1 "ab.cd" H)
    as (symbol & ed' & _ & Hnth & Hname & Hjump & Hsel & _).
  exists symbol, ed'. repeat split; assumption.
Defined.

(** X12: a row past the end of the listener's symbol list makes the jump
    fail with [IndexError]; no editor state results from it.  This is what
    happens to a row of a panel opened before the symbol list shrank. *)
Theorem goto_row_out_of_range self ed index :
  Z.of_nat (List.length (yaml_symbols self)) <= index ->
  goto_on_symbol_selected index (Some self) ed = Raise IndexError.
Proof.
  intros Hout. unfold goto_on_symbol_selected, list_getitem.
  replace (index =? -1) with false by (symmetry; apply Z.eqb_neq; lia).
  replace (index <? 0) with false by (symmetry; apply Z.ltb_ge; lia).
  replace (index <? Z.of_nat (List.length (yaml_symbols self))) with false
    by (symmetry; apply Z.ltb_ge; lia).
  now rewrite andb_false_r.
Qed.

Lemma goto_row_out_of_range_witness :
  Z.of_nat (List.length (yaml_symbols listener_nested)) <= 2 /\
  goto_on_symbol_selected 2 (Some listener_nested) editor_nested
    = Raise IndexError.
Proof.
  assert (H : Z.of_nat (List.length (yaml_symbols listener_nested)) <= 2)
    by (cbn; lia).
  split; [exact H|].
  exact (goto_row_out_of_range listener_nested editor_nested 2 H).
Defined.
